(** * VPN query form and retrying dispatch: a shallow embedding

    The development follows three source units of the assistant:

    - the VPN query form ([startVpnHandler], [stopVpnHandler],
      [vpnStatusHandler], [getLocationVpnFiles], [pickMostPossibleFile]);
    - the Spotify commands controller ([getTargetDevice], [execute]);
    - the retry helper [runFunctionWithRetry] of the shared utilities, which
      the controller imports.

    A JavaScript string is modelled by a [string] whose characters stand for
    code units below 256 (the Latin-1 range); on that range the character
    classes [\w] and [\s] and the case mapping below are those of the
    language.  Arrays are lists, [undefined] coming out of a destructuring
    is [None], a rejected promise or a thrown exception is [Thrown]. *)

From Stdlib Require Import List String Ascii Bool Arith NArith ZArith Lia.
Import ListNotations.

Local Open Scope string_scope.
Local Open Scope list_scope.

(** ** Strings as the runtime sees them *)

Module Js.

Definition code (c : ascii) : N := N_of_ascii c.

Definition between (lo hi : N) (c : ascii) : bool :=
  (N.leb lo (code c) && N.leb (code c) hi)%bool.

Definition is_digit (c : ascii) : bool := between 48 57 c.
Definition is_upper (c : ascii) : bool := between 65 90 c.
Definition is_lower (c : ascii) : bool := between 97 122 c.

(** [\w] without the unicode flag: [A-Za-z0-9_]. *)
Definition is_word (c : ascii) : bool :=
  (is_digit c || is_upper c || is_lower c || Ascii.eqb c "_")%bool.

(** [\s]: tab, line feed, vertical tab, form feed, carriage return, space
    and the no-break space. *)
Definition is_space (c : ascii) : bool :=
  (between 9 13 c || N.eqb (code c) 32 || N.eqb (code c) 160)%bool.

(** Letters that [toLowerCase] changes: [A-Z] and the accented capitals
    [192..222] except the multiplication sign [215]. *)
Definition has_lower (c : ascii) : bool :=
  (is_upper c || (between 192 222 c && negb (N.eqb (code c) 215)))%bool.

Definition lower_char (c : ascii) : ascii :=
  if has_lower c then ascii_of_N (code c + 32) else c.

Fixpoint map_chars (f : ascii -> ascii) (s : string) : string :=
  match s with
  | EmptyString => EmptyString
  | String c s' => String (f c) (map_chars f s')
  end.

Definition toLowerCase (s : string) : string := map_chars lower_char s.

(** [s.includes(sub)]: [sub] occurs in [s] at some position. *)
Fixpoint includes (s sub : string) : bool :=
  if String.prefix sub s then true
  else match s with
       | EmptyString => false
       | String _ s' => includes s' sub
       end.

(** [s.replace(/<class>/g, '')] for a pattern that matches one character at
    a time: every matching character is dropped. *)
Fixpoint remove_all (p : ascii -> bool) (s : string) : string :=
  match s with
  | EmptyString => EmptyString
  | String c s' => if p c then remove_all p s' else String c (remove_all p s')
  end.

(** [s.replace(/<class>+/g, r)]: every maximal run of matching characters
    becomes one [r].  [in_run] tells that the previous character matched. *)
Fixpoint replace_runs (p : ascii -> bool) (r : string) (in_run : bool)
    (s : string) : string :=
  match s with
  | EmptyString => EmptyString
  | String c s' =>
      if p c then
        if in_run then replace_runs p r true s'
        else (r ++ replace_runs p r true s')%string
      else String c (replace_runs p r false s')
  end.

(** [parts.join(sep)]. *)
Definition join (sep : string) (parts : list string) : string :=
  String.concat sep parts.

(** [s.split(sep)] for a one-character separator; [cur] is the segment
    being read, in reverse.  The result is never empty. *)
Fixpoint rev_string (acc s : string) : string :=
  match s with
  | EmptyString => acc
  | String c s' => rev_string (String c acc) s'
  end.

Fixpoint split_from (sep : ascii) (cur : string) (s : string) : list string :=
  match s with
  | EmptyString => [rev_string EmptyString cur]
  | String c s' =>
      if Ascii.eqb c sep then rev_string EmptyString cur :: split_from sep EmptyString s'
      else split_from sep (String c cur) s'
  end.

Definition split (sep : ascii) (s : string) : list string :=
  split_from sep EmptyString s.

(** [xs.indexOf(x)] with strict equality on strings: the first index, or
    [-1]. *)
Fixpoint indexOf_from (xs : list string) (x : string) (i : Z) : Z :=
  match xs with
  | [] => (-1)%Z
  | y :: xs' => if String.eqb y x then i else indexOf_from xs' x (i + 1)%Z
  end.

Definition indexOf (xs : list string) (x : string) : Z := indexOf_from xs x 0%Z.

(** [xs.slice(start)]: a negative [start] counts from the end, and the
    index is clamped to the array. *)
Definition slice {A : Type} (start : Z) (xs : list A) : list A :=
  let len := Z.of_nat (List.length xs) in
  let k := if (start <? 0)%Z then Z.max (len + start) 0 else Z.min start len in
  skipn (Z.to_nat k) xs.

End Js.

(** ** The resource disambiguator *)

(** The two replacements applied to a candidate before the substring test:
    [.replace(/[^\w\s]|_/g, '').replace(/\s+/g, ' ')]. *)
Definition strip_pattern (c : ascii) : bool :=
  (negb (Js.is_word c || Js.is_space c) || Ascii.eqb c "_")%bool.

Definition normalize (vpnFile : string) : string :=
  Js.replace_runs Js.is_space " " false (Js.remove_all strip_pattern vpnFile).

(** The mutable locals of the loop: [possibleLocation] and [files]. *)
Record loop_state : Type := LoopState {
  possibleLocation : list string;
  files : list string
}.

(** The filter of the loop body, always over [vpnFiles]. *)
Definition filteredFiles (vpnFiles : list string) (phrase : list string)
  : list string :=
  filter (fun vpnFile => Js.includes (normalize vpnFile) (Js.join " " phrase))
         vpnFiles.

(** One turn of [for (const token of tokens)].  A number is truthy when it
    is not zero. *)
Definition loop_body (vpnFiles : list string) (st : loop_state)
    (token : string) : loop_state :=
  let possibleLocation' := possibleLocation st ++ [token] in
  let filtered := filteredFiles vpnFiles possibleLocation' in
  if (negb (Nat.eqb (List.length filtered) 0) &&
      Nat.ltb (List.length filtered) (List.length (files st)))%bool
  then LoopState possibleLocation' filtered
  else LoopState possibleLocation' (files st).

Definition run_loop (vpnFiles : list string) (tokens : list string)
    (st : loop_state) : loop_state :=
  fold_left (loop_body vpnFiles) tokens st.

Definition pickMostPossibleFile (vpnFiles tokens : list string)
  : list string :=
  if Nat.eqb (List.length vpnFiles) 1 then vpnFiles
  else files (run_loop vpnFiles tokens (LoopState [] vpnFiles)).

(** ** Effects

    Handlers are asynchronous methods that call collaborators (files, broker,
    vendor client, logger).  A computation runs in a world, may change it,
    either returns or throws, and emits the collaborator calls it made, in
    order. *)

Inductive error : Type :=
| TypeError (message : string)
| Error (message : string).

Definition message (e : error) : string :=
  match e with
  | TypeError m => m
  | Error m => m
  end.

Inductive outcome (A : Type) : Type :=
| Returned (a : A)
| Thrown (e : error).

Arguments Returned {A} a.
Arguments Thrown {A} e.

Section Effects.

Variables World Event : Type.

Definition M (A : Type) : Type := World -> outcome A * World * list Event.

Definition ret {A : Type} (a : A) : M A := fun w => (Returned a, w, []).

Definition throw {A : Type} (e : error) : M A := fun w => (Thrown e, w, []).

Definition bind {A B : Type} (m : M A) (k : A -> M B) : M B :=
  fun w =>
    match m w with
    | (Returned a, w1, t1) =>
        match k a w1 with
        | (o, w2, t2) => (o, w2, t1 ++ t2)
        end
    | (Thrown e, w1, t1) => (Thrown e, w1, t1)
    end.

(** [try { m } catch (e) { h e }]. *)
Definition try_catch {A : Type} (m : M A) (h : error -> M A) : M A :=
  fun w =>
    match m w with
    | (Returned a, w1, t1) => (Returned a, w1, t1)
    | (Thrown e, w1, t1) =>
        match h e w1 with
        | (o, w2, t2) => (o, w2, t1 ++ t2)
        end
    end.

(** A call to a collaborator that may fail, recorded as [ev]. *)
Definition call {A : Type} (ev : Event) (f : World -> outcome A * World) : M A :=
  fun w => let (o, w1) := f w in (o, w1, [ev]).

(** A call to a collaborator that completes, recorded as [ev]. *)
Definition perform (ev : Event) (f : World -> World) : M unit :=
  fun w => (Returned tt, f w, [ev]).

Definition result_of {A : Type} (r : outcome A * World * list Event) : outcome A :=
  fst (fst r).
Definition world_of {A : Type} (r : outcome A * World * list Event) : World :=
  snd (fst r).
Definition calls_of {A : Type} (r : outcome A * World * list Event) : list Event :=
  snd r.

End Effects.

Arguments ret {World Event A} a.
Arguments throw {World Event A} e.
Arguments bind {World Event A B} m k.
Arguments try_catch {World Event A} m h.
Arguments call {World Event A} ev f.
Arguments perform {World Event} ev f.
Arguments result_of {World Event A} r.
Arguments world_of {World Event A} r.
Arguments calls_of {World Event A} r.

Notation "x <- m ;; k" := (bind m (fun x => k))
  (at level 61, m at next level, right associativity).

(** ** JSON values and [JSON.stringify] *)

#[warnings="-register-all"]
Inductive json : Type :=
| JString (s : string)
| JObject (members : list (string * json)).

Module Json.

Definition dquote : ascii := ascii_of_N 34.
Definition backslash : ascii := ascii_of_N 92.

Definition hex_digit (n : N) : ascii :=
  if N.ltb n 10 then ascii_of_N (48 + n) else ascii_of_N (87 + n).

(** The escape of one code unit inside a quoted string. *)
Definition escape (c : ascii) : string :=
  let n := Js.code c in
  if N.eqb n 8 then String backslash "b"
  else if N.eqb n 9 then String backslash "t"
  else if N.eqb n 10 then String backslash "n"
  else if N.eqb n 12 then String backslash "f"
  else if N.eqb n 13 then String backslash "r"
  else if N.eqb n 34 then String backslash (String dquote EmptyString)
  else if N.eqb n 92 then String backslash (String backslash EmptyString)
  else if N.ltb n 32 then
    String backslash
      (String "u" (String "0" (String "0"
        (String (hex_digit (N.div n 16))
          (String (hex_digit (N.modulo n 16)) EmptyString)))))
  else String c EmptyString.

Fixpoint escape_all (s : string) : string :=
  match s with
  | EmptyString => EmptyString
  | String c s' => (escape c ++ escape_all s')%string
  end.

Definition quote (s : string) : string :=
  String dquote (escape_all s ++ String dquote EmptyString)%string.

Fixpoint stringify (j : json) : string :=
  match j with
  | JString s => quote s
  | JObject members =>
      ("{" ++ Js.join ","
                (map (fun kv : string * json => let (k, v) := kv in
                                (quote k ++ ":" ++ stringify v)%string)
                     members)
           ++ "}")%string
  end.

End Json.

(** ** The VPN query form *)

Inductive vpn_event : Type :=
| GetDirFiles (path : string)
| CreateConnection
| SendToChannelWithResponse (queueName payload : string).

(** The collaborators handed to the constructor.  [configService.get] is
    synchronous and read-only. *)
Record services (World : Type) : Type := Services {
  configService_get : string -> string;
  filesService_getDirFiles : string -> World -> outcome (list string) * World;
  rabbitService_createConnection : World -> outcome unit * World;
  rabbitService_sendToChannelWithResponse :
    string -> string -> World -> outcome string * World
}.

Arguments configService_get {World} s _.
Arguments filesService_getDirFiles {World} s _ _.
Arguments rabbitService_createConnection {World} s _.
Arguments rabbitService_sendToChannelWithResponse {World} s _ _ _.

(** [ActionTypes.Ansible] of the shared constants, which the form imports;
    the three strings are left open. *)
Record ansible_action_types : Type := AnsibleActionTypes {
  VpnStart : string;
  VpnStop : string;
  VpnStatus : string
}.

Section VpnQueryForm.

Variable World : Type.
Variable svc : services World.
Variable Ansible : ansible_action_types.

Definition getLocationVpnFiles (location : string)
  : M World vpn_event (list string) :=
  let vpnFolderFilesPath := configService_get svc "VPN.FolderFilesPath" in
  dirFiles <- call (GetDirFiles vpnFolderFilesPath)
                   (filesService_getDirFiles svc vpnFolderFilesPath) ;;
  ret (filter (fun name =>
                 Js.includes (Js.toLowerCase name) (Js.toLowerCase location))
              dirFiles).

(** The payload of the start request.  A member whose value is [undefined]
    is left out by [JSON.stringify]. *)
Definition start_payload (vpnFileName : option string) : json :=
  JObject [("name", JString (VpnStart Ansible));
           ("props", JObject match vpnFileName with
                             | Some v => [("vpnFileName", JString v)]
                             | None => []
                             end)].

(** [location] is the value of the COUNTRY prop of the action, which the
    form declares with a clarifying question. *)
Definition startVpnHandler (location : string) (tokens : list string)
  : M World vpn_event string :=
  vpnFiles <- getLocationVpnFiles location ;;
  let tokensAfterLocation := Js.slice (Js.indexOf tokens location) tokens in
  match pickMostPossibleFile vpnFiles tokensAfterLocation with
  | [] => throw (TypeError "Cannot read properties of undefined (reading 'split')")
  | vpnFilePath :: _ =>
      let vpnFileName := hd_error (Js.split "." vpnFilePath) in
      let queueName := configService_get svc "Rabbit.AnsibleQueueName" in
      _ <- call CreateConnection (rabbitService_createConnection svc) ;;
      let payload := Json.stringify (start_payload vpnFileName) in
      call (SendToChannelWithResponse queueName payload)
           (rabbitService_sendToChannelWithResponse svc queueName payload)
  end.

Definition stopVpnHandler : M World vpn_event string :=
  let queueName := configService_get svc "Rabbit.AnsibleQueueName" in
  _ <- call CreateConnection (rabbitService_createConnection svc) ;;
  let payload :=
    Json.stringify (JObject [("name", JString (VpnStop Ansible));
                             ("props", JObject [])]) in
  call (SendToChannelWithResponse queueName payload)
       (rabbitService_sendToChannelWithResponse svc queueName payload).

Definition vpnStatusHandler : M World vpn_event string :=
  let queueName := configService_get svc "Rabbit.AnsibleQueueName" in
  _ <- call CreateConnection (rabbitService_createConnection svc) ;;
  let payload :=
    Json.stringify (JObject [("name", JString (VpnStatus Ansible));
                             ("props", JObject [])]) in
  call (SendToChannelWithResponse queueName payload)
       (rabbitService_sendToChannelWithResponse svc queueName payload).

End VpnQueryForm.

Arguments getLocationVpnFiles {World} svc location _.
Arguments startVpnHandler {World} svc Ansible location tokens _.
Arguments stopVpnHandler {World} svc Ansible _.
Arguments vpnStatusHandler {World} svc Ansible _.

(** ** Retrying an action once *)

Section Retry.

Variables World Event : Type.

(** Modelled from the spec: [runFunctionWithRetry] belongs to the shared
    utilities ([shared/utils]), which are not among the sources; only its
    call in [execute] is.  The spec's words: it wraps exactly one execution
    attempt; on failure it invokes the supplied recovery callback exactly
    once, then retries the original action exactly once more; a second
    failure is terminal and propagated to the caller.  The spec does not say
    what a failing recovery callback leads to, so the callback is one that
    completes (see [perform]). *)
Definition runFunctionWithRetry {A : Type}
    (fn : M World Event A) (recovery : M World Event unit)
  : M World Event A :=
  try_catch fn (fun _ => _ <- recovery ;; fn).

End Retry.

Arguments runFunctionWithRetry {World Event A} fn recovery _.

(** ** The Spotify commands controller *)

Module SpotifyApi.

Record UserDevice : Type := Build_UserDevice {
  id : option string;
  type : string;
  is_active : bool
}.

End SpotifyApi.

Inductive spotify_event : Type :=
| GetDevices
| HandleAction (name : string) (device : SpotifyApi.UserDevice)
               (value : option string)
| RefreshAccess
| LoggerError (text : string).

Record response : Type := Response {
  status : Z;
  body : json
}.

Definition DefaultDeviceType : string := "TV".

(** A string is truthy when it is present and not empty. *)
Definition truthy (s : option string) : bool :=
  match s with
  | Some v => negb (String.eqb v EmptyString)
  | None => false
  end.

Section CommandsController.

Variable World : Type.

(** [spotifyService.getDevices], [this.handleAction] as the action handed to
    the retry helper, and [spotifyService.refreshAccess]. *)
Variable getDevices : World -> outcome (list SpotifyApi.UserDevice) * World.
Variable handleAction :
  string -> SpotifyApi.UserDevice -> option string -> World -> outcome unit * World.
Variable refreshAccess : World -> World.

Definition getTargetDevice (deviceType : option string)
  : M World spotify_event (option SpotifyApi.UserDevice) :=
  devices <- call GetDevices getDevices ;;
  if truthy deviceType then
    ret (find (fun d => match deviceType with
                        | Some t => String.eqb (SpotifyApi.type d) t
                        | None => false
                        end) devices)
  else
    match find SpotifyApi.is_active devices with
    | Some activeDevice => ret (Some activeDevice)
    | None =>
        ret (find (fun d => String.eqb (SpotifyApi.type d) DefaultDeviceType)
                  devices)
    end.

Definition json_message (text : string) : json :=
  JObject [("message", JString text)].

(** [name], [value] and [deviceType] are what the first two lines take out
    of the request: [req.body.name], [props?.[0]?.value] and
    [args?.deviceType]; a request without a body is outside the model.
    What the action throws is an error object with its message (the type
    [error]), as [handleAction] throws, and the logger and the response
    writer complete. *)
Definition execute (name : string) (value : option string)
    (deviceType : option string) : M World spotify_event response :=
  device <- getTargetDevice deviceType ;;
  match device with
  | None => ret (Response 500 (json_message "No active device found"))
  | Some d =>
      if negb (truthy (SpotifyApi.id d)) then
        ret (Response 500 (json_message "No active device found"))
      else
        try_catch
          (_ <- runFunctionWithRetry
                  (call (HandleAction name d value) (handleAction name d value))
                  (perform RefreshAccess refreshAccess) ;;
           ret (Response 200 (json_message "OK")))
          (fun e =>
             _ <- perform (LoggerError (message e)) (fun w => w) ;;
             ret (Response 500 (json_message (message e))))
  end.

End CommandsController.

Arguments getTargetDevice {World} getDevices deviceType _.
Arguments execute {World} getDevices handleAction refreshAccess name value deviceType _.

(** ** [handleAction] of the commands controller *)

(** [ActionTypes] of the Spotify service constants, which the controller
    imports; the nine strings are left open. *)
Record spotify_action_types : Type := SpotifyActionTypes {
  Resume : string;
  Pause : string;
  NextTrack : string;
  PrevTrack : string;
  RestartTack : string;
  PlayPlaylist : string;
  EnableShuffle : string;
  DisableShuffle : string;
  ChangePlayback : string
}.

(** The calls [handleAction] makes: the logger and the methods of the
    Spotify service, with their arguments. *)
Inductive spotify_call : Type :=
| LoggerLog (text : string)
| SpotifyResume (deviceId : string)
| SpotifyPause (deviceId : string)
| SpotifyNextTrack (deviceId : string)
| SpotifyPrevTrack (deviceId : string)
| SpotifySeekTrack (position : Z) (deviceId : string)
| SpotifyPlay (deviceId : string) (value : option string)
| SpotifySetShuffle (deviceId : string) (state : bool)
| SpotifyChangePlaybackDevice (deviceId : string).

Section HandleAction.

Variable World : Type.
Variable ActionTypes : spotify_action_types.

(** The Spotify service: what each of its methods does to the world. *)
Variable spotifyService : spotify_call -> World -> outcome unit * World.

Definition handleAction (name : string) (device : SpotifyApi.UserDevice)
    (value : option string) : M World spotify_call unit :=
  match SpotifyApi.id device with
  | None => throw (Error "No active device found")
  | Some deviceId =>
      if String.eqb deviceId EmptyString then
        throw (Error "No active device found")
      else
        _ <- perform (LoggerLog ("Executing action: " ++ name)) (fun w => w) ;;
        if String.eqb name (Resume ActionTypes) then
          call (SpotifyResume deviceId) (spotifyService (SpotifyResume deviceId))
        else if String.eqb name (Pause ActionTypes) then
          call (SpotifyPause deviceId) (spotifyService (SpotifyPause deviceId))
        else if String.eqb name (NextTrack ActionTypes) then
          call (SpotifyNextTrack deviceId) (spotifyService (SpotifyNextTrack deviceId))
        else if String.eqb name (PrevTrack ActionTypes) then
          call (SpotifyPrevTrack deviceId) (spotifyService (SpotifyPrevTrack deviceId))
        else if String.eqb name (RestartTack ActionTypes) then
          call (SpotifySeekTrack 0 deviceId)
               (spotifyService (SpotifySeekTrack 0 deviceId))
        else if String.eqb name (PlayPlaylist ActionTypes) then
          call (SpotifyPlay deviceId value)
               (spotifyService (SpotifyPlay deviceId value))
        else if String.eqb name (EnableShuffle ActionTypes) then
          call (SpotifySetShuffle deviceId true)
               (spotifyService (SpotifySetShuffle deviceId true))
        else if String.eqb name (DisableShuffle ActionTypes) then
          call (SpotifySetShuffle deviceId false)
               (spotifyService (SpotifySetShuffle deviceId false))
        else if String.eqb name (ChangePlayback ActionTypes) then
          call (SpotifyChangePlaybackDevice deviceId)
               (spotifyService (SpotifyChangePlaybackDevice deviceId))
        else throw (Error ("Unknown action type: " ++ name))
  end.

End HandleAction.

Arguments handleAction {World} ActionTypes spotifyService name device value _.

(** ** The streams service *)

Module Streams.

Definition AppleTvExecuteType : string := "apple-tv-execute".

Module AppleTvPowerState.
Definition On : string := "PowerState.On".
Definition Off : string := "PowerState.Off".
End AppleTvPowerState.

Module AppleTvCommands.
Definition PowerState : string := "power_state".
Definition TurnOn : string := "turn_on".
Definition LaunchApp : string := "launch_app".
End AppleTvCommands.

Inductive Providers : Type :=
| Twitch
| Youtube
| Unrecognized.

(** What [new URL(link)] gives that the service reads: the host name, the
    path and the lookup in the search parameters ([null] is [None]). *)
Record URL : Type := Build_URL {
  hostname : string;
  pathname : string;
  searchParams_get : string -> option string
}.

(** The calls of the service: the logger, the discovery client, the timer
    and the HTTP client. *)
Inductive event : Type :=
| LogInfo (text : string)
| LogError (text : string)
| InvokeAction (type command : string)
| Wait (ms : Z)
| HttpGet (url : string).

(** [encodeURIComponent] on code units below 256: the unreserved
    characters stay, any other one becomes the escapes of its UTF-8
    bytes. *)
Definition unreserved (c : ascii) : bool :=
  (Js.is_digit c || Js.is_upper c || Js.is_lower c
   || existsb (Ascii.eqb c) (list_ascii_of_string "-_.!~*'()"))%bool.

Definition hex_upper (n : N) : ascii :=
  if N.ltb n 10 then ascii_of_N (48 + n) else ascii_of_N (55 + n).

Definition percent (byte : N) : string :=
  String "%" (String (hex_upper (N.div byte 16))
                     (String (hex_upper (N.modulo byte 16)) EmptyString)).

Definition encode_unit (c : ascii) : string :=
  let n := Js.code c in
  if unreserved c then String c EmptyString
  else if N.ltb n 128 then percent n
  else (percent (192 + N.div n 64) ++ percent (128 + N.modulo n 64))%string.

Fixpoint encodeURIComponent (s : string) : string :=
  match s with
  | EmptyString => EmptyString
  | String c s' => (encode_unit c ++ encodeURIComponent s')%string
  end.

(** A value inside a template literal. *)
Definition show_null (v : option string) : string :=
  match v with
  | Some text => text
  | None => "null"
  end.

Definition show_undefined (v : option string) : string :=
  match v with
  | Some text => text
  | None => "undefined"
  end.

Section Service.

Variable World : Type.

(** [configService.get], the [invokeAction] of the discovery client (its
    answer is the [response] member), [httpClientService.get] and the URL
    constructor, which throws on a link it cannot parse ([None]). *)
Variable configService_get : string -> string.
Variable invokeAction : string -> string -> World -> outcome string * World.
Variable httpClientService_get : string -> World -> outcome unit * World.
Variable parseURL : string -> option URL.

Definition wait (ms : Z) : M World event unit := perform (Wait ms) (fun w => w).

Definition info (text : string) : M World event unit :=
  perform (LogInfo text) (fun w => w).

Definition checkPowerStatus : M World event bool :=
  response <- call (InvokeAction AppleTvExecuteType AppleTvCommands.PowerState)
                   (invokeAction AppleTvExecuteType AppleTvCommands.PowerState) ;;
  ret (String.eqb response AppleTvPowerState.On).

Definition turnOnAppleTv : M World event unit :=
  isAppleTvOn <- checkPowerStatus ;;
  if (isAppleTvOn : bool) then info "Apple TV is already on"
  else
    _ <- info "Turning on Apple TV" ;;
    _ <- call (InvokeAction AppleTvExecuteType AppleTvCommands.TurnOn)
              (invokeAction AppleTvExecuteType AppleTvCommands.TurnOn) ;;
    _ <- wait 5000 ;;
    isAppleTvOn <- checkPowerStatus ;;
    if negb isAppleTvOn then throw (Error "Failed to turn on Apple TV")
    else ret tt.

(** The second element of [url.pathname.split("/")]. *)
Definition path_segment (url : URL) : option string :=
  nth_error (Js.split "/" (pathname url)) 1.

Definition getDeeplinkByURL (link : string) : outcome (string * Providers) :=
  match parseURL link with
  | None => Thrown (TypeError "Invalid URL")
  | Some url =>
      if String.eqb (hostname url) "www.youtube.com" then
        let videoId := searchParams_get url "v" in
        Returned (("youtube://watch/" ++ show_null videoId)%string, Youtube)
      else if String.eqb (hostname url) "youtu.be" then
        let videoId := path_segment url in
        Returned (("youtube://watch/" ++ show_undefined videoId)%string, Youtube)
      else if String.eqb (hostname url) "www.twitch.tv" then
        let channel := path_segment url in
        let liveStreamForwarderUrl := configService_get "liveStreamForwarder.url" in
        let atvUrl := configService_get "liveStreamForwarder.atvUrl" in
        let streamUrl :=
          (liveStreamForwarderUrl ++ "/live-stream/stream/twitch/"
             ++ show_undefined channel)%string in
        let deeplinkUrl :=
          (atvUrl ++ "/open?target=vlc-x-callback://x-callback-url/stream?url="
             ++ encodeURIComponent streamUrl)%string in
        Returned (deeplinkUrl, Twitch)
      else Returned (link, Unrecognized)
  end.

Definition launchApp (appId : string) : M World event unit :=
  _ <- info ("Launching app: " ++ appId) ;;
  _ <- call (InvokeAction AppleTvExecuteType
               (AppleTvCommands.LaunchApp ++ "=" ++ appId))
            (invokeAction AppleTvExecuteType
               (AppleTvCommands.LaunchApp ++ "=" ++ appId)) ;;
  ret tt.

Definition openDeeplink (deeplink : string) (provider : Providers)
  : M World event unit :=
  match provider with
  | Youtube => launchApp deeplink
  | Twitch =>
      _ <- launchApp "com.celerity.DeepLink" ;;
      _ <- wait 5000 ;;
      call (HttpGet deeplink) (httpClientService_get deeplink)
  | Unrecognized =>
      perform (LogError ("Unrecognized provider for deeplink: " ++ deeplink))
              (fun w => w)
  end.

Definition openUrl (url : string) : M World event unit :=
  _ <- info ("Opening url: " ++ url) ;;
  _ <- turnOnAppleTv ;;
  match getDeeplinkByURL url with
  | Thrown e => throw e
  | Returned (deeplink, provider) =>
      _ <- info ("Opening deeplink: " ++ deeplink) ;;
      _ <- openDeeplink deeplink provider ;;
      info "Url opened successfully"
  end.

End Service.

Arguments wait {World} ms _.
Arguments info {World} text _.
Arguments checkPowerStatus {World} invokeAction _.
Arguments turnOnAppleTv {World} invokeAction _.
Arguments launchApp {World} invokeAction appId _.
Arguments openDeeplink {World} invokeAction httpClientService_get deeplink provider _.
Arguments openUrl {World} configService_get invokeAction httpClientService_get
  parseURL url _.

End Streams.

(** ** The queue handler of the smart devices service *)

Module SmartDevices.

(** What [JSON.parse] gives.  Numbers are kept as they come, in a type
    left open; an object holds one entry per key. *)
#[warnings="-register-all"]
Inductive value (Number : Type) : Type :=
| Null
| Bool (b : bool)
| Num (n : Number)
| Str (s : string)
| Arr (elements : list (value Number))
| Obj (members : list (string * value Number)).

Arguments Null {Number}.
Arguments Bool {Number} b.
Arguments Num {Number} n.
Arguments Str {Number} s.
Arguments Arr {Number} elements.
Arguments Obj {Number} members.

(** [ActionTypes.SmartDevices] of the shared constants; the four strings
    are left open. *)
Record action_types : Type := ActionTypes {
  SetYeelightRandomColor : string;
  SetRandomColorInEveryLight : string;
  TurnOnYeelight : string;
  TurnOffYeelight : string
}.

(** The part of a consumed message the handler reads. *)
Record ConsumeMessage : Type := Build_ConsumeMessage {
  content : string;
  replyTo : string;
  correlationId : string
}.

Section Handler.

Variable Number : Type.

(** The number 100 and the text of a number in a template literal. *)
Variable hundred : Number.
Variable show_number : Number -> string.

(** The methods of the Yeelight service with their arguments; a missing
    argument and [undefined] are [None]. *)
Inductive yeelight_call : Type :=
| SetRandomColor (zones : option (value Number))
| SetRandomColorInEvery (zones : option (value Number))
| SetPower (on : bool) (zones : option (value Number))
           (brightness : option (value Number)).

Inductive event : Type :=
| Yeelight (c : yeelight_call)
| LoggerWarn (text : string)
| SendToQueue (queue : string) (body : string) (correlation : string).

Fixpoint lookup (key : string) (members : list (string * value Number))
  : option (value Number) :=
  match members with
  | [] => None
  | (k, v) :: rest => if String.eqb k key then Some v else lookup key rest
  end.

(** [v.key] for the keys the handler reads, none of which a string, an
    array, a number or a boolean has. *)
Definition member (key : string) (v : value Number) : option (value Number) :=
  match v with
  | Obj members => lookup key members
  | _ => None
  end.

(** The text of a value in a template literal; [None] when the
    conversion throws a type error.  An object of its own key [toString]
    (whose value, coming from JSON, is no function) cannot be converted;
    any other object reads [[object Object]].  In the text of an array the
    elements are joined by commas and [null] counts for nothing. *)
Fixpoint to_text (v : value Number) : option string :=
  match v with
  | Null => Some "null"
  | Bool true => Some "true"
  | Bool false => Some "false"
  | Num n => Some (show_number n)
  | Str s => Some s
  | Arr elements =>
      option_map (Js.join ",")
        ((fix texts (l : list (value Number)) : option (list string) :=
            match l with
            | [] => Some []
            | element :: rest =>
                match match element with
                      | Null => Some EmptyString
                      | _ => to_text element
                      end with
                | None => None
                | Some text =>
                    match texts rest with
                    | None => None
                    | Some more => Some (text :: more)
                    end
                end
            end) elements)
  | Obj members =>
      match lookup "toString" members with
      | Some _ => None
      | None => Some "[object Object]"
      end
  end.

Definition show (v : option (value Number)) : option string :=
  match v with
  | Some present => to_text present
  | None => Some "undefined"
  end.

Variable World : Type.
Variable SmartDevicesTypes : action_types.

(** [JSON.parse], the Yeelight service and [channel.sendToQueue]. *)
Variable JSON_parse : string -> outcome (value Number).
Variable yeelightService : yeelight_call -> World -> outcome unit * World.
Variable channel_sendToQueue :
  string -> string -> string -> World -> outcome unit * World.

(** [name === constant] in the switch. *)
Definition is_action (name : option (value Number)) (constant : string) : bool :=
  match name with
  | Some (Str s) => String.eqb s constant
  | _ => false
  end.

Definition dispatch (name zones brightness : option (value Number))
  : M World event unit :=
  if is_action name (SetYeelightRandomColor SmartDevicesTypes) then
    call (Yeelight (SetRandomColor zones)) (yeelightService (SetRandomColor zones))
  else if is_action name (SetRandomColorInEveryLight SmartDevicesTypes) then
    call (Yeelight (SetRandomColorInEvery zones))
         (yeelightService (SetRandomColorInEvery zones))
  else if is_action name (TurnOnYeelight SmartDevicesTypes) then
    call (Yeelight (SetPower true zones brightness))
         (yeelightService (SetPower true zones brightness))
  else if is_action name (TurnOffYeelight SmartDevicesTypes) then
    call (Yeelight (SetPower false zones None))
         (yeelightService (SetPower false zones None))
  else
    match show name with
    | Some text => perform (LoggerWarn ("Unknown action: " ++ text)) (fun w => w)
    | None => throw (TypeError "Cannot convert object to primitive value")
    end.

Definition reply (msg : ConsumeMessage) : M World event unit :=
  let serviceResp := Json.stringify (JObject []) in
  call (SendToQueue (replyTo msg) serviceResp (correlationId msg))
       (channel_sendToQueue (replyTo msg) serviceResp (correlationId msg)).

Definition handleQueueMessage (msg : ConsumeMessage) : M World event unit :=
  match JSON_parse (content msg) with
  | Thrown e => throw e
  | Returned Null =>
      throw (TypeError "Cannot destructure property 'name' of null")
  | Returned parsed =>
      let name := member "name" parsed in
      match member "args" parsed with
      | None =>
          _ <- dispatch name (Some (Arr [])) (Some (Num hundred)) ;;
          reply msg
      | Some Null =>
          throw (TypeError "Cannot destructure property 'zones' of null")
      | Some args =>
          _ <- dispatch name (member "zones" args) (member "brightness" args) ;;
          reply msg
      end
  end.

End Handler.

Arguments SetRandomColor {Number} zones.
Arguments SetRandomColorInEvery {Number} zones.
Arguments SetPower {Number} on zones brightness.
Arguments Yeelight {Number} c.
Arguments LoggerWarn {Number} text.
Arguments SendToQueue {Number} queue body correlation.
Arguments lookup {Number} key members.
Arguments member {Number} key v.
Arguments to_text {Number} show_number v.
Arguments show {Number} show_number v.
Arguments is_action {Number} name constant.
Arguments dispatch {Number} show_number {World} SmartDevicesTypes yeelightService
  name zones brightness _.
Arguments reply {Number World} channel_sendToQueue msg _.
Arguments handleQueueMessage {Number} hundred show_number {World} SmartDevicesTypes
  JSON_parse yeelightService channel_sendToQueue msg _.

End SmartDevices.

(** ** Vocabulary of the statements *)

(** [l1] is [l2] with some elements left out, the order kept. *)
Inductive Sublist {A : Type} : list A -> list A -> Prop :=
| Sublist_nil : Sublist [] []
| Sublist_skip (x : A) (l1 l2 : list A) : Sublist l1 l2 -> Sublist l1 (x :: l2)
| Sublist_keep (x : A) (l1 l2 : list A) : Sublist l1 l2 -> Sublist (x :: l1) (x :: l2).

(** [sub] occurs in [s] as a contiguous substring. *)
Definition occurs_in (sub s : string) : Prop :=
  exists before after : string, s = (before ++ sub ++ after)%string.

(** The part of [s] before the first [sep] (all of [s] when there is none). *)
Fixpoint before_first (sep : ascii) (s : string) : string :=
  match s with
  | EmptyString => EmptyString
  | String c s' => if Ascii.eqb c sep then EmptyString else String c (before_first sep s')
  end.

Fixpoint has_char (sep : ascii) (s : string) : bool :=
  match s with
  | EmptyString => false
  | String c s' => (Ascii.eqb c sep || has_char sep s')%bool
  end.

(** Small letters whose capital lies in the range: [a-z] and [224..254]
    except the division sign [247]. *)
Definition has_capital (c : ascii) : bool :=
  (Js.is_lower c || (Js.between 224 254 c && negb (N.eqb (Js.code c) 247)))%bool.

(** The other case of a letter, where the range has it. *)
Definition swap_case (c : ascii) : ascii :=
  if Js.has_lower c then Js.lower_char c
  else if has_capital c then ascii_of_N (Js.code c - 32)
  else c.

(** [s] with the case of the letters picked by [mask] swapped. *)
Fixpoint recase (mask : list bool) (s : string) {struct s} : string :=
  match s with
  | EmptyString => EmptyString
  | String c s' =>
      match mask with
      | [] => s
      | b :: mask' => String (if b then swap_case c else c) (recase mask' s')
      end
  end.

(** [s] without the characters at its head that are no letter and no
    digit (white space, punctuation, underscores). *)
Fixpoint skip_to_alnum (s : string) : string :=
  match s with
  | EmptyString => EmptyString
  | String c rest =>
      if (Js.is_digit c || Js.is_upper c || Js.is_lower c)%bool then s
      else skip_to_alnum rest
  end.

(** Wherever [text] reads as [phrase] once both are put in lower case, it
    does not read as [phrase] itself: [phrase] is in [text], if at all,
    only with letters of the other case. *)
Fixpoint only_in_other_case (text phrase : string) : bool :=
  (implb (String.prefix (Js.toLowerCase phrase) (Js.toLowerCase text))
         (negb (String.prefix phrase text))
   && match text with
      | EmptyString => true
      | String _ rest => only_in_other_case rest phrase
      end)%bool.

(** Two strings that differ, and only in the case of letters. *)
Definition differs_only_in_case (a b : string) : bool :=
  (negb (String.eqb a b) && String.eqb (Js.toLowerCase a) (Js.toLowerCase b))%bool.

Definition is_alnum (c : ascii) : bool :=
  (Js.is_digit c || Js.is_upper c || Js.is_lower c)%bool.

Fixpoint all_chars (p : ascii -> bool) (s : string) : bool :=
  match s with
  | EmptyString => true
  | String c s' => (p c && all_chars p s')%bool
  end.

(** The test of [getLocationVpnFiles] on one file name. *)
Definition matchesLocation (location name : string) : bool :=
  Js.includes (Js.toLowerCase name) (Js.toLowerCase location).

(** What the loop of [pickMostPossibleFile] keeps true of its locals. *)
Definition loop_invariant (vpnFiles : list string) (st : loop_state) : Prop :=
  Sublist (files st) vpnFiles /\ (files st = [] -> vpnFiles = []).

(** The same collaborators, the listed file names passed through [f]. *)
Definition rename_dirFiles {World : Type} (f : string -> string)
    (svc : services World) : services World :=
  Services World
    (configService_get svc)
    (fun path w =>
       match filesService_getDirFiles svc path w with
       | (Returned dirFiles, w1) => (Returned (map f dirFiles), w1)
       | (Thrown e, w1) => (Thrown e, w1)
       end)
    (rabbitService_createConnection svc)
    (rabbitService_sendToChannelWithResponse svc).

(** Collaborators that always answer: the configuration maps a key to
    itself, the folder lists [dirFiles], the broker connects and answers an
    empty object. *)
Definition sample_services (dirFiles : list string) : services unit :=
  Services unit
    (fun key => key)
    (fun _ w => (Returned dirFiles, w))
    (fun w => (Returned tt, w))
    (fun _ _ w => (Returned "{}", w)).

Definition sample_action_types : ansible_action_types :=
  AnsibleActionTypes "VpnStart" "VpnStop" "VpnStatus".

(** The two calls the retry helper can make. *)
Inductive retry_event : Type :=
| Attempt
| Recovery.

Definition retry_event_eq_dec (a b : retry_event) : {a = b} + {a <> b}.
Proof. decide equality. Defined.

(** The cases of the switch of [handleAction]. *)
Definition known_action (ActionTypes : spotify_action_types) (name : string) : bool :=
  existsb (String.eqb name)
    [Resume ActionTypes; Pause ActionTypes; NextTrack ActionTypes;
     PrevTrack ActionTypes; RestartTack ActionTypes; PlayPlaylist ActionTypes;
     EnableShuffle ActionTypes; DisableShuffle ActionTypes;
     ChangePlayback ActionTypes].

(** The device a call of the Spotify service is aimed at. *)
Definition call_device (c : spotify_call) : option string :=
  match c with
  | LoggerLog _ => None
  | SpotifyResume d | SpotifyPause d | SpotifyNextTrack d | SpotifyPrevTrack d
  | SpotifySeekTrack _ d | SpotifyPlay d _ | SpotifySetShuffle d _
  | SpotifyChangePlaybackDevice d => Some d
  end.

Definition sample_spotify_types : spotify_action_types :=
  SpotifyActionTypes "Resume" "Pause" "NextTrack" "PrevTrack" "RestartTack"
    "PlayPlaylist" "EnableShuffle" "DisableShuffle" "ChangePlayback".

Definition sample_device (deviceId : option string) (deviceType : string)
    (active : bool) : SpotifyApi.UserDevice :=
  SpotifyApi.Build_UserDevice deviceId deviceType active.

Definition streams_event_eq_dec (a b : Streams.event) : {a = b} + {a <> b}.
Proof. decide equality; first [apply string_dec | apply Z.eq_dec]. Defined.

(** The characters [encodeURIComponent] can put out. *)
Definition uri_safe (c : ascii) : bool :=
  (Streams.unreserved c || Ascii.eqb c "%")%bool.

(** An Apple TV that is on and does what it is told. *)
Definition sample_invokeAction (type command : string) (w : unit)
  : outcome string * unit :=
  (Returned Streams.AppleTvPowerState.On, w).

(** An Apple TV that stays off. *)
Definition sample_invokeAction_off (type command : string) (w : unit)
  : outcome string * unit :=
  (Returned Streams.AppleTvPowerState.Off, w).

Definition sample_smart_types : SmartDevices.action_types :=
  SmartDevices.ActionTypes "SetYeelightRandomColor" "SetRandomColorInEveryLight"
    "TurnOnYeelight" "TurnOffYeelight".

Definition sample_message : SmartDevices.ConsumeMessage :=
  SmartDevices.Build_ConsumeMessage "(the message)" "reply-queue" "id-7".

(** A request to turn the kitchen lights on that gives no brightness. *)
Definition sample_turn_on : list (string * SmartDevices.value Z) :=
  [("name", SmartDevices.Str "TurnOnYeelight");
   ("args", SmartDevices.Obj
              [("zones", SmartDevices.Arr [SmartDevices.Str "kitchen"])])].

(** Reading a quoted JSON string back: the characters up to the closing
    quote, each escape undone.  Used to tell that quoting loses nothing. *)
Definition hex_value (c : ascii) : N :=
  let n := Js.code c in
  if N.ltb n 58 then n - 48 else n - 87.

Definition unescape_letter (c : ascii) : ascii :=
  match Js.code c with
  | 98%N => ascii_of_N 8
  | 116%N => ascii_of_N 9
  | 110%N => ascii_of_N 10
  | 102%N => ascii_of_N 12
  | 114%N => ascii_of_N 13
  | _ => c
  end.

Fixpoint unquote_body (s : string) : option string :=
  match s with
  | EmptyString => None
  | String c rest =>
      if Ascii.eqb c Json.dquote then Some EmptyString
      else if Ascii.eqb c Json.backslash then
        match rest with
        | String "u" (String _ (String _ (String high (String low rest')))) =>
            option_map (String (ascii_of_N (16 * hex_value high + hex_value low)))
                       (unquote_body rest')
        | String letter rest' =>
            option_map (String (unescape_letter letter)) (unquote_body rest')
        | EmptyString => None
        end
      else option_map (String c) (unquote_body rest)
  end.

(** * Properties *)

(** ** Strings *)

Section StringFacts.

Local Open Scope string_scope.

Lemma append_empty_r (s : string) : s ++ EmptyString = s.
Proof. induction s as [| c s IH]; simpl; [reflexivity | now rewrite IH]. Qed.

Lemma append_assoc (a b c : string) : (a ++ b) ++ c = a ++ (b ++ c).
Proof. induction a as [| x a IH]; simpl; [reflexivity | now rewrite IH]. Qed.

Lemma length_append (a b : string) :
  String.length (a ++ b) = String.length a + String.length b.
Proof. induction a as [| x a IH]; simpl; [reflexivity | now rewrite IH]. Qed.

Lemma prefix_occurs (p s : string) :
  String.prefix p s = true <-> exists rest, s = p ++ rest.
Proof.
  revert s; induction p as [| a p IH]; intros s; simpl.
  - destruct s; split; intros; try reflexivity; eexists; reflexivity.
  - destruct s as [| b s]; simpl.
    + split; [discriminate | intros [rest H]; discriminate].
    + destruct (ascii_dec a b) as [-> | Hab].
      * rewrite IH. split; intros [rest H]; exists rest.
        -- now rewrite H.
        -- now inversion H.
      * split; [discriminate | intros [rest H]; inversion H; congruence].
Qed.

Lemma includes_unfold (s sub : string) :
  Js.includes s sub =
  if String.prefix sub s then true
  else match s with
       | EmptyString => false
       | String _ s' => Js.includes s' sub
       end.
Proof. destruct s; reflexivity. Qed.

Lemma includes_occurs (s sub : string) :
  Js.includes s sub = true <-> occurs_in sub s.
Proof.
  unfold occurs_in. induction s as [| c s IH]; rewrite includes_unfold.
  - destruct (String.prefix sub EmptyString) eqn:Hp.
    + split; [intros _ | reflexivity].
      apply prefix_occurs in Hp. destruct Hp as [rest Hr].
      exists EmptyString, rest. exact Hr.
    + split; [discriminate |].
      intros (before & after & H).
      destruct before; [| discriminate]. simpl in H.
      assert (String.prefix sub EmptyString = true) as Hq
        by (apply prefix_occurs; exists after; exact H).
      congruence.
  - destruct (String.prefix sub (String c s)) eqn:Hp.
    + split; [intros _ | reflexivity].
      apply prefix_occurs in Hp. destruct Hp as [rest Hr].
      exists EmptyString, rest. exact Hr.
    + rewrite IH. split.
      * intros (before & after & H). exists (String c before), after.
        simpl. now rewrite H.
      * intros (before & after & H). destruct before as [| b before].
        -- simpl in H.
           assert (String.prefix sub (String c s) = true) as Hq
             by (apply prefix_occurs; exists after; exact H).
           congruence.
        -- simpl in H. inversion H. exists before, after. reflexivity.
Qed.

Lemma append_same_length (a b c : string) :
  String.length (a ++ b ++ c) = String.length b -> a ++ b ++ c = b.
Proof.
  rewrite !length_append. intros H.
  destruct a; [| simpl in H; lia].
  destruct c; [| simpl in H; lia].
  simpl. apply append_empty_r.
Qed.

(** A substring as long as the whole string is the whole string. *)
Lemma includes_same_length (s sub : string) :
  Js.includes s sub = true -> String.length s = String.length sub -> s = sub.
Proof.
  intros H Hlen. apply includes_occurs in H. destruct H as (a & b & ->).
  now apply append_same_length.
Qed.

Lemma map_chars_length (f : ascii -> ascii) (s : string) :
  String.length (Js.map_chars f s) = String.length s.
Proof. induction s as [| c s IH]; simpl; [reflexivity | now rewrite IH]. Qed.

Lemma lower_swap_case (c : ascii) : Js.lower_char (swap_case c) = Js.lower_char c.
Proof. destruct c as [[] [] [] [] [] [] [] []]; vm_compute; reflexivity. Qed.

Lemma lower_lower_char (c : ascii) : Js.lower_char (Js.lower_char c) = Js.lower_char c.
Proof. destruct c as [[] [] [] [] [] [] [] []]; vm_compute; reflexivity. Qed.

Lemma toLowerCase_recase (mask : list bool) (s : string) :
  Js.toLowerCase (recase mask s) = Js.toLowerCase s.
Proof.
  unfold Js.toLowerCase. revert mask; induction s as [| c s IH]; intros mask; simpl.
  - reflexivity.
  - destruct mask as [| b mask]; simpl; [reflexivity |].
    rewrite IH. destruct b; [now rewrite lower_swap_case | reflexivity].
Qed.

Lemma toLowerCase_idempotent (s : string) :
  Js.toLowerCase (Js.toLowerCase s) = Js.toLowerCase s.
Proof.
  unfold Js.toLowerCase.
  induction s as [| c s IH]; simpl; [reflexivity |].
  now rewrite IH, lower_lower_char.
Qed.

End StringFacts.

(** ** Lists *)

Section ListFacts.

Context {A : Type}.

Lemma Sublist_refl (l : list A) : Sublist l l.
Proof. induction l; constructor; assumption. Qed.

Lemma Sublist_filter (p : A -> bool) (l : list A) : Sublist (filter p l) l.
Proof.
  induction l as [| x l IH]; simpl; [constructor |].
  destruct (p x); constructor; assumption.
Qed.

Lemma Sublist_length (l1 l2 : list A) :
  Sublist l1 l2 -> List.length l1 <= List.length l2.
Proof. induction 1; simpl; lia. Qed.

End ListFacts.

(** ** The resource disambiguator *)

Section Narrowing.

Variable vpnFiles : list string.

Lemma loop_body_cases (st : loop_state) (token : string) :
  let filtered := filteredFiles vpnFiles (possibleLocation st ++ [token]) in
  possibleLocation (loop_body vpnFiles st token) = possibleLocation st ++ [token]
  /\ ((filtered <> [] /\ List.length filtered < List.length (files st)
       /\ files (loop_body vpnFiles st token) = filtered)
      \/ (~ (filtered <> [] /\ List.length filtered < List.length (files st))
          /\ files (loop_body vpnFiles st token) = files st)).
Proof.
  cbv zeta. unfold loop_body.
  destruct (filteredFiles vpnFiles (possibleLocation st ++ [token])) as [| f fs] eqn:Hf.
  - simpl. split; [reflexivity |]. right. split; [| reflexivity].
    intros [H _]. now apply H.
  - cbn [List.length Nat.eqb negb andb].
    destruct (Nat.ltb (S (List.length fs)) (List.length (files st))) eqn:Hlt.
    + simpl. split; [reflexivity |]. left.
      apply Nat.ltb_lt in Hlt. repeat split; [discriminate | exact Hlt].
    + simpl. split; [reflexivity |]. right. split; [| reflexivity].
      apply Nat.ltb_ge in Hlt. intros [_ H]. lia.
Qed.

Lemma loop_body_length (st : loop_state) (token : string) :
  List.length (files (loop_body vpnFiles st token)) <= List.length (files st).
Proof.
  destruct (loop_body_cases st token) as [_ [(_ & Hlt & ->) | (_ & ->)]]; lia.
Qed.

Lemma loop_body_invariant (st : loop_state) (token : string) :
  loop_invariant vpnFiles st -> loop_invariant vpnFiles (loop_body vpnFiles st token).
Proof.
  intros [Hsub Hne].
  destruct (loop_body_cases st token) as [_ [(Hnil & _ & Heq) | (_ & Heq)]];
    unfold loop_invariant; rewrite Heq.
  - split; [apply Sublist_filter | intros H; contradiction].
  - split; assumption.
Qed.

Lemma run_loop_invariant (tokens : list string) (st : loop_state) :
  loop_invariant vpnFiles st -> loop_invariant vpnFiles (run_loop vpnFiles tokens st).
Proof.
  revert st; induction tokens as [| t tokens IH]; intros st H; simpl.
  - exact H.
  - apply IH, loop_body_invariant, H.
Qed.

Lemma run_loop_snoc (tokens : list string) (token : string) (st : loop_state) :
  run_loop vpnFiles (tokens ++ [token]) st
  = loop_body vpnFiles (run_loop vpnFiles tokens st) token.
Proof. unfold run_loop. now rewrite fold_left_app. Qed.

(** The accumulated phrase is the tokens read so far, in order. *)
Lemma run_loop_possibleLocation (tokens : list string) (st : loop_state) :
  possibleLocation (run_loop vpnFiles tokens st) = possibleLocation st ++ tokens.
Proof.
  revert st; induction tokens as [| t tokens IH]; intros st; simpl.
  - now rewrite app_nil_r.
  - rewrite IH. destruct (loop_body_cases st t) as [-> _].
    now rewrite <- app_assoc.
Qed.

End Narrowing.

Lemma run_loop_no_candidates (tokens : list string) (st : loop_state) :
  files (run_loop [] tokens st) = files st.
Proof.
  revert st; induction tokens as [| t tokens IH]; intros st; simpl.
  - reflexivity.
  - rewrite IH. reflexivity.
Qed.

Lemma pickMostPossibleFile_no_candidates (tokens : list string) :
  pickMostPossibleFile [] tokens = [].
Proof. unfold pickMostPossibleFile. simpl. apply run_loop_no_candidates. Qed.

(** C1.  Narrowing monotonicity: the result of [pickMostPossibleFile] is a
    sublist of the candidates; a turn of the loop never makes the working
    set longer, so reading one more token never makes the result longer;
    and the result is empty only when there was no candidate. *)
Theorem pickMostPossibleFile_narrowing (vpnFiles tokens : list string) :
  Sublist (pickMostPossibleFile vpnFiles tokens) vpnFiles
  /\ (forall st token,
        List.length (files (loop_body vpnFiles st token)) <= List.length (files st))
  /\ (forall token,
        List.length (pickMostPossibleFile vpnFiles (tokens ++ [token]))
        <= List.length (pickMostPossibleFile vpnFiles tokens))
  /\ List.length (pickMostPossibleFile vpnFiles tokens) <= List.length vpnFiles
  /\ (pickMostPossibleFile vpnFiles tokens = [] -> vpnFiles = []).
Proof.
  assert (loop_invariant vpnFiles
            (run_loop vpnFiles tokens (LoopState [] vpnFiles))) as [Hsub Hne].
  { apply run_loop_invariant. split; [apply Sublist_refl | intros H; exact H]. }
  assert (Sublist (pickMostPossibleFile vpnFiles tokens) vpnFiles) as HS.
  { unfold pickMostPossibleFile.
    destruct (Nat.eqb (List.length vpnFiles) 1); [apply Sublist_refl | exact Hsub]. }
  split; [exact HS |].
  split; [intros st token; apply loop_body_length |].
  split.
  { intros token. unfold pickMostPossibleFile.
    destruct (Nat.eqb (List.length vpnFiles) 1); [lia |].
    rewrite run_loop_snoc. apply loop_body_length. }
  split; [apply Sublist_length, HS |].
  unfold pickMostPossibleFile.
  destruct (Nat.eqb (List.length vpnFiles) 1); [intros H; exact H | exact Hne].
Qed.

(** C3.  Single-candidate shortcut: a candidate list of length at most one
    comes back as it is, whatever the tokens. *)
Theorem pickMostPossibleFile_at_most_one (vpnFiles tokens : list string) :
  List.length vpnFiles <= 1 -> pickMostPossibleFile vpnFiles tokens = vpnFiles.
Proof.
  intros H. unfold pickMostPossibleFile.
  destruct vpnFiles as [| f [| g rest]]; simpl in *.
  - apply run_loop_no_candidates.
  - reflexivity.
  - lia.
Qed.

Lemma pickMostPossibleFile_at_most_one_witness :
  List.length ["only.ovpn"] <= 1
  /\ pickMostPossibleFile ["only.ovpn"] ["any"; "tokens"] = ["only.ovpn"].
Proof.
  split; [simpl; lia |].
  apply (pickMostPossibleFile_at_most_one ["only.ovpn"] ["any"; "tokens"]).
  simpl; lia.
Defined.

(** C6.  The narrowing example: of the Paris and Lyon files, the token
    [paris] keeps the Paris file alone. *)
Theorem pickMostPossibleFile_paris :
  pickMostPossibleFile ["vpn_france_paris.ovpn"; "vpn_france_lyon.ovpn"] ["paris"]
  = ["vpn_france_paris.ovpn"].
Proof. vm_compute. reflexivity. Qed.

(** *** What normalizing leaves of a candidate *)

Lemma strip_pattern_keeps (c : ascii) :
  strip_pattern c = false -> (is_alnum c || Js.is_space c)%bool = true.
Proof.
  destruct c as [[] [] [] [] [] [] [] []]; vm_compute; intros H;
    first [reflexivity | discriminate H].
Qed.

(** Whatever is not a letter, a digit or white space is dropped, and so is
    the underscore. *)
Lemma strip_pattern_punctuation (c : ascii) :
  (is_alnum c || Js.is_space c)%bool = false -> strip_pattern c = true.
Proof.
  destruct c as [[] [] [] [] [] [] [] []]; vm_compute; intros H;
    first [reflexivity | discriminate H].
Qed.

Lemma strip_pattern_underscore : strip_pattern "_" = true.
Proof. reflexivity. Qed.

Lemma remove_all_chars (p : ascii -> bool) (s : string) :
  all_chars (fun c => negb (p c)) (Js.remove_all p s) = true.
Proof.
  induction s as [| c s IH]; simpl; [reflexivity |].
  destruct (p c) eqn:Hp; simpl; [exact IH |].
  now rewrite Hp, IH.
Qed.

Lemma all_chars_impl (p q : ascii -> bool) (s : string) :
  (forall c, p c = true -> q c = true) ->
  all_chars p s = true -> all_chars q s = true.
Proof.
  intros Hpq. induction s as [| c s IH]; simpl; [reflexivity |].
  intros H. apply andb_true_iff in H. destruct H as [Hc Hs].
  now rewrite (Hpq _ Hc), IH.
Qed.

Lemma replace_runs_chars (in_run : bool) (s : string) :
  all_chars (fun c => (is_alnum c || Js.is_space c)%bool) s = true ->
  all_chars (fun c => (is_alnum c || Ascii.eqb c " ")%bool)
            (Js.replace_runs Js.is_space " " in_run s) = true.
Proof.
  revert in_run; induction s as [| c s IH]; intros in_run; simpl; [reflexivity |].
  intros H. apply andb_true_iff in H. destruct H as [Hc Hs].
  destruct (Js.is_space c) eqn:Hsp.
  - destruct in_run; simpl; now apply IH.
  - simpl. rewrite orb_false_r in Hc. rewrite Hc. simpl. now apply IH.
Qed.

Lemma prefix_cons (a b : ascii) (p s : string) :
  String.prefix (String a p) (String b s)
  = if Ascii.eqb a b then String.prefix p s else false.
Proof.
  cbn [String.prefix].
  destruct (ascii_dec a b) as [-> | Hab].
  - now rewrite Ascii.eqb_refl.
  - destruct (Ascii.eqb_spec a b); [contradiction | reflexivity].
Qed.

Lemma replace_runs_no_leading_blank (s : string) :
  String.prefix " " (Js.replace_runs Js.is_space " " true s) = false.
Proof.
  induction s as [| c s IH]; cbn [Js.replace_runs]; [reflexivity |].
  destruct (Js.is_space c) eqn:Hsp; [exact IH |].
  rewrite prefix_cons.
  destruct (Ascii.eqb_spec " " c) as [<- | _]; [| reflexivity].
  vm_compute in Hsp. discriminate.
Qed.

Lemma prefix_two_blanks (c : ascii) (s : string) :
  String.prefix "  " (String c s)
  = (Ascii.eqb c " " && String.prefix " " s)%bool.
Proof.
  rewrite prefix_cons, (Ascii.eqb_sym " " c).
  destruct (Ascii.eqb c " "); reflexivity.
Qed.

Lemma replace_runs_single_blanks (in_run : bool) (s : string) :
  Js.includes (Js.replace_runs Js.is_space " " in_run s) "  " = false.
Proof.
  revert in_run; induction s as [| c s IH]; intros in_run;
    cbn [Js.replace_runs]; [reflexivity |].
  destruct (Js.is_space c) eqn:Hsp.
  - destruct in_run; [apply IH |].
    change (" " ++ Js.replace_runs Js.is_space " " true s)%string
      with (String " " (Js.replace_runs Js.is_space " " true s)).
    rewrite includes_unfold, prefix_two_blanks, replace_runs_no_leading_blank.
    simpl. apply IH.
  - rewrite includes_unfold, prefix_two_blanks.
    destruct (Ascii.eqb_spec c " ") as [-> | _].
    + vm_compute in Hsp. discriminate.
    + simpl. apply IH.
Qed.

(** A normalized candidate is made of ASCII letters, digits and single
    blanks: punctuation and underscores are gone, and no two blanks are
    adjacent. *)
Lemma normalize_shape (vpnFile : string) :
  all_chars (fun c => (is_alnum c || Ascii.eqb c " ")%bool) (normalize vpnFile) = true
  /\ Js.includes (normalize vpnFile) "  " = false.
Proof.
  unfold normalize. split; [| apply replace_runs_single_blanks].
  apply replace_runs_chars.
  apply all_chars_impl with (p := fun c => negb (strip_pattern c)).
  - intros c Hc. apply strip_pattern_keeps. now apply negb_true_iff.
  - apply remove_all_chars.
Qed.

(** Letters and digits pass through normalizing untouched, in order. *)
Lemma normalize_keeps_alnum (vpnFile : string) :
  Js.remove_all (fun c => negb (is_alnum c)) (normalize vpnFile)
  = Js.remove_all (fun c => negb (is_alnum c)) vpnFile.
Proof.
  unfold normalize.
  assert (forall b s,
            Js.remove_all (fun c => negb (is_alnum c))
              (Js.replace_runs Js.is_space " " b s)
            = Js.remove_all (fun c => negb (is_alnum c)) s) as Hruns.
  { intros b s; revert b; induction s as [| c s IH]; intros b; simpl; [reflexivity |].
    destruct (Js.is_space c) eqn:Hsp.
    - assert (is_alnum c = false) as ->
        by (revert Hsp; destruct c as [[] [] [] [] [] [] [] []]; vm_compute;
            intros H; first [reflexivity | discriminate H]).
      simpl. destruct b; simpl; apply IH.
    - simpl. now rewrite IH. }
  rewrite Hruns.
  induction vpnFile as [| c s IH]; simpl; [reflexivity |].
  destruct (strip_pattern c) eqn:Hp; simpl.
  - assert (is_alnum c = false) as ->
      by (revert Hp; destruct c as [[] [] [] [] [] [] [] []]; vm_compute;
          intros H; first [reflexivity | discriminate H]).
    simpl. exact IH.
  - now rewrite IH.
Qed.

(** *** The step of the loop *)

Lemma filteredFiles_In (vpnFiles phrase : list string) (vpnFile : string) :
  In vpnFile (filteredFiles vpnFiles phrase)
  <-> In vpnFile vpnFiles /\ occurs_in (Js.join " " phrase) (normalize vpnFile).
Proof.
  unfold filteredFiles. rewrite filter_In, includes_occurs. reflexivity.
Qed.

Lemma normalize_after_blank (rest : string) :
  Js.replace_runs Js.is_space " " true (Js.remove_all strip_pattern rest)
  = normalize (skip_to_alnum rest).
Proof.
  unfold normalize. induction rest as [| c rest IH]; [reflexivity |].
  cbn [skip_to_alnum].
  destruct (strip_pattern c) eqn:Hstrip.
  - assert ((Js.is_digit c || Js.is_upper c || Js.is_lower c)%bool = false) as ->
      by (revert Hstrip; destruct c as [[] [] [] [] [] [] [] []]; vm_compute;
          intros H; first [reflexivity | discriminate H]).
    cbn [Js.remove_all]. rewrite Hstrip. exact IH.
  - cbn [Js.remove_all]. rewrite Hstrip. cbn [Js.replace_runs].
    destruct (Js.is_space c) eqn:Hspace.
    + assert ((Js.is_digit c || Js.is_upper c || Js.is_lower c)%bool = false) as ->
        by (revert Hspace; destruct c as [[] [] [] [] [] [] [] []]; vm_compute;
            intros H; first [reflexivity | discriminate H]).
      exact IH.
    + assert ((Js.is_digit c || Js.is_upper c || Js.is_lower c)%bool = true) as ->.
      { pose proof (strip_pattern_keeps c Hstrip) as H. unfold is_alnum in H.
        rewrite Hspace, orb_false_r in H. exact H. }
      cbn [Js.remove_all]. rewrite Hstrip. cbn [Js.replace_runs].
      now rewrite Hspace.
Qed.

(** Normalizing, character by character: punctuation and underscores go;
    a white space character becomes one blank and takes with it all that
    follows up to the next letter or digit; letters and digits stay. *)
Lemma normalize_cons (c : ascii) (rest : string) :
  normalize (String c rest)
  = if strip_pattern c then normalize rest
    else if Js.is_space c then String " " (normalize (skip_to_alnum rest))
    else String c (normalize rest).
Proof.
  unfold normalize at 1. cbn [Js.remove_all].
  destruct (strip_pattern c); [reflexivity |].
  cbn [Js.replace_runs]. destruct (Js.is_space c); [| reflexivity].
  now rewrite normalize_after_blank.
Qed.

Lemma pickMostPossibleFile_step (vpnFiles read : list string) (token : string) :
  let filtered := filteredFiles vpnFiles (read ++ [token]) in
  (filtered <> []
   /\ List.length filtered < List.length (pickMostPossibleFile vpnFiles read)
   /\ pickMostPossibleFile vpnFiles (read ++ [token]) = filtered)
  \/ (~ (filtered <> []
         /\ List.length filtered < List.length (pickMostPossibleFile vpnFiles read))
      /\ pickMostPossibleFile vpnFiles (read ++ [token])
         = pickMostPossibleFile vpnFiles read).
Proof.
  cbv zeta. unfold pickMostPossibleFile.
  destruct (Nat.eqb (List.length vpnFiles) 1) eqn:Hone.
  - right. split; [| reflexivity]. intros [Hne Hlt].
    apply Nat.eqb_eq in Hone. rewrite Hone in Hlt.
    destruct (filteredFiles vpnFiles (read ++ [token]));
      [now apply Hne | simpl in Hlt; lia].
  - rewrite run_loop_snoc.
    destruct (loop_body_cases vpnFiles
                (run_loop vpnFiles read (LoopState [] vpnFiles)) token)
      as [_ Hcases].
    cbv zeta in Hcases.
    rewrite (run_loop_possibleLocation vpnFiles read (LoopState [] vpnFiles))
      in Hcases.
    simpl app in Hcases. exact Hcases.
Qed.

(** C4.  The narrowing step: once the tokens [read] have been read, reading
    [token] filters the full candidate list for the candidates whose
    normalized text contains the tokens read so far and [token], joined by
    blanks, as a contiguous substring; the result of [pickMostPossibleFile]
    (the working set of its loop) becomes the filtered list when that one
    is not empty and shorter than the result so far, and stays as it was
    otherwise; with no token the result is the candidate list.  Normalizing
    drops punctuation and underscores, turns each run of white space into
    one blank and keeps the letters and digits, in order. *)
Theorem narrowing_step_rule (vpnFiles read : list string) (token : string) :
  let before := run_loop vpnFiles read (LoopState [] vpnFiles) in
  let after := run_loop vpnFiles (read ++ [token]) (LoopState [] vpnFiles) in
  let phrase := Js.join " " (read ++ [token]) in
  let filtered :=
    filter (fun vpnFile => Js.includes (normalize vpnFile) phrase) vpnFiles in
  (forall vpnFile,
      In vpnFile filtered
      <-> In vpnFile vpnFiles /\ occurs_in phrase (normalize vpnFile))
  /\ possibleLocation after = read ++ [token]
  /\ (filtered <> [] /\ List.length filtered < List.length (files before) ->
      files after = filtered)
  /\ (~ (filtered <> [] /\ List.length filtered < List.length (files before)) ->
      files after = files before)
  /\ (forall vpnFile,
        all_chars (fun c => (is_alnum c || Ascii.eqb c " ")%bool)
                  (normalize vpnFile) = true
        /\ Js.includes (normalize vpnFile) "  " = false
        /\ Js.remove_all (fun c => negb (is_alnum c)) (normalize vpnFile)
           = Js.remove_all (fun c => negb (is_alnum c)) vpnFile)
  /\ pickMostPossibleFile vpnFiles [] = vpnFiles
  /\ (filtered <> []
      /\ List.length filtered < List.length (pickMostPossibleFile vpnFiles read) ->
      pickMostPossibleFile vpnFiles (read ++ [token]) = filtered)
  /\ (~ (filtered <> []
         /\ List.length filtered < List.length (pickMostPossibleFile vpnFiles read)) ->
      pickMostPossibleFile vpnFiles (read ++ [token])
      = pickMostPossibleFile vpnFiles read)
  /\ (List.length vpnFiles <> 1 ->
      pickMostPossibleFile vpnFiles read = files before
      /\ pickMostPossibleFile vpnFiles (read ++ [token]) = files after)
  /\ normalize EmptyString = EmptyString
  /\ (forall c rest,
        normalize (String c rest)
        = if strip_pattern c then normalize rest
          else if Js.is_space c then String " " (normalize (skip_to_alnum rest))
          else String c (normalize rest)).
Proof.
  cbv zeta.
  pose proof (run_loop_possibleLocation vpnFiles read (LoopState [] vpnFiles)) as Hread.
  simpl in Hread.
  pose proof (pickMostPossibleFile_step vpnFiles read token) as Hpick.
  cbv zeta in Hpick. unfold filteredFiles in Hpick.
  rewrite run_loop_snoc.
  destruct (loop_body_cases vpnFiles
              (run_loop vpnFiles read (LoopState [] vpnFiles)) token) as [Hphrase Hfiles].
  cbv zeta in Hfiles. rewrite Hread in Hphrase, Hfiles.
  unfold filteredFiles in Hfiles.
  split; [intros vpnFile; apply (filteredFiles_In vpnFiles (read ++ [token])) |].
  split; [exact Hphrase |].
  split; [| split; [| split; [| split; [| split; [| split; [| split; [| split]]]]]]].
  - intros Hyes. destruct Hfiles as [(_ & _ & Heq) | (Hno & _)];
      [exact Heq | contradiction].
  - intros Hno. destruct Hfiles as [(Hne & Hlt & _) | (_ & Heq)];
      [exfalso; apply Hno; split; assumption | exact Heq].
  - intros vpnFile. destruct (normalize_shape vpnFile) as [Hchars Hblanks].
    repeat split; [exact Hchars | exact Hblanks | apply normalize_keeps_alnum].
  - unfold pickMostPossibleFile.
    destruct (Nat.eqb (List.length vpnFiles) 1); reflexivity.
  - intros Hyes. destruct Hpick as [(_ & _ & Heq) | (Hno & _)];
      [exact Heq | contradiction].
  - intros Hno. destruct Hpick as [(Hne & Hlt & _) | (_ & Heq)];
      [exfalso; apply Hno; split; assumption | exact Heq].
  - intros Hlen. apply Nat.eqb_neq in Hlen. unfold pickMostPossibleFile.
    rewrite Hlen. split; [reflexivity | now rewrite run_loop_snoc].
  - reflexivity.
  - apply normalize_cons.
Qed.

Lemma differs_only_in_case_excludes (text phrase : string) :
  differs_only_in_case text phrase = true -> Js.includes text phrase = false.
Proof.
  unfold differs_only_in_case. intros H.
  apply andb_true_iff in H. destruct H as [Hneq Hlow].
  apply negb_true_iff, String.eqb_neq in Hneq.
  apply String.eqb_eq in Hlow.
  destruct (Js.includes text phrase) eqn:Hinc; [| reflexivity].
  exfalso. apply Hneq. apply includes_same_length; [exact Hinc |].
  unfold Js.toLowerCase in Hlow.
  rewrite <- (map_chars_length Js.lower_char text), Hlow.
  apply map_chars_length.
Qed.

Lemma map_chars_append (f : ascii -> ascii) (a b : string) :
  Js.map_chars f (a ++ b) = (Js.map_chars f a ++ Js.map_chars f b)%string.
Proof. induction a as [| c a IH]; simpl; [reflexivity | now rewrite IH]. Qed.

Lemma prefix_toLowerCase (phrase text : string) :
  String.prefix phrase text = true ->
  String.prefix (Js.toLowerCase phrase) (Js.toLowerCase text) = true.
Proof.
  intros H. apply prefix_occurs in H. destruct H as [rest ->].
  apply prefix_occurs. exists (Js.toLowerCase rest).
  apply map_chars_append.
Qed.

Lemma only_in_other_case_unfold (text phrase : string) :
  only_in_other_case text phrase
  = (implb (String.prefix (Js.toLowerCase phrase) (Js.toLowerCase text))
           (negb (String.prefix phrase text))
     && match text with
        | EmptyString => true
        | String _ rest => only_in_other_case rest phrase
        end)%bool.
Proof. destruct text; reflexivity. Qed.

(** A phrase that is in a text only with letters of the other case is not
    found by [includes]. *)
Lemma only_in_other_case_excludes (text phrase : string) :
  only_in_other_case text phrase = true -> Js.includes text phrase = false.
Proof.
  induction text as [| c text IH]; rewrite only_in_other_case_unfold,
    includes_unfold; intros H; apply andb_true_iff in H; destruct H as [Hhere Hrest].
  - destruct (String.prefix phrase EmptyString) eqn:Hp; [| reflexivity].
    rewrite (prefix_toLowerCase _ _ Hp) in Hhere. discriminate.
  - destruct (String.prefix phrase (String c text)) eqn:Hp; [| now apply IH].
    rewrite (prefix_toLowerCase _ _ Hp) in Hhere. discriminate.
Qed.

Lemma prefix_length (phrase text : string) :
  String.prefix phrase text = true -> String.length phrase <= String.length text.
Proof.
  intros H. apply prefix_occurs in H. destruct H as [rest ->].
  rewrite length_append. lia.
Qed.

Lemma only_in_other_case_short (text phrase : string) :
  String.length text < String.length phrase ->
  only_in_other_case text phrase = true.
Proof.
  induction text as [| c text IH]; rewrite only_in_other_case_unfold; intros Hlen.
  - destruct (String.prefix phrase EmptyString) eqn:Hp.
    + apply prefix_length in Hp. lia.
    + now rewrite implb_true_r.
  - destruct (String.prefix phrase (String c text)) eqn:Hp.
    + apply prefix_length in Hp. lia.
    + rewrite implb_true_r, IH; [reflexivity | simpl in Hlen; lia].
Qed.

(** The whole-string case: a text that is the phrase in another spelling
    has the phrase only in the other case. *)
Lemma differs_only_in_case_other_case (text phrase : string) :
  differs_only_in_case text phrase = true -> only_in_other_case text phrase = true.
Proof.
  intros H. pose proof (differs_only_in_case_excludes text phrase H) as Hinc.
  unfold differs_only_in_case in H. apply andb_true_iff in H.
  destruct H as [_ Hlow]. apply String.eqb_eq in Hlow.
  assert (String.length text = String.length phrase) as Hlen.
  { unfold Js.toLowerCase in Hlow.
    rewrite <- (map_chars_length Js.lower_char text), Hlow.
    apply map_chars_length. }
  rewrite includes_unfold in Hinc.
  destruct (String.prefix phrase text) eqn:Hp; [discriminate |].
  rewrite only_in_other_case_unfold, Hp, implb_true_r.
  destruct text as [| c text]; [reflexivity |].
  apply only_in_other_case_short. simpl in Hlen. lia.
Qed.

(** C10.  Case-sensitive narrowing: the phrase, the tokens as they came
    joined by blanks, is looked for as it is in the normalized candidates;
    a candidate is kept exactly when the phrase occurs in it letter for
    letter.  So when, in every normalized candidate, the phrase occurs at
    most with letters of the other case, the filter finds nothing and the
    working set, hence the result, is what it was before the token. *)
Theorem narrowing_case_sensitive (vpnFiles read : list string) (token : string) :
  forallb (fun vpnFile =>
             only_in_other_case (normalize vpnFile)
                                (Js.join " " (read ++ [token])))
          vpnFiles = true ->
  filteredFiles vpnFiles (read ++ [token]) = []
  /\ files (run_loop vpnFiles (read ++ [token]) (LoopState [] vpnFiles))
     = files (run_loop vpnFiles read (LoopState [] vpnFiles))
  /\ pickMostPossibleFile vpnFiles (read ++ [token])
     = pickMostPossibleFile vpnFiles read
  /\ (forall vpnFile,
        In vpnFile vpnFiles ->
        Js.includes (normalize vpnFile) (Js.join " " (read ++ [token])) = false
        /\ ~ occurs_in (Js.join " " (read ++ [token])) (normalize vpnFile)).
Proof.
  intros H.
  rewrite forallb_forall in H.
  assert (forall vpnFile,
             In vpnFile vpnFiles ->
             Js.includes (normalize vpnFile) (Js.join " " (read ++ [token])) = false)
    as Hmiss.
  { intros vpnFile Hin. apply only_in_other_case_excludes. now apply H. }
  assert (filteredFiles vpnFiles (read ++ [token]) = []) as Hnone.
  { unfold filteredFiles. clear H.
    induction vpnFiles as [| f fs IH]; simpl; [reflexivity |].
    rewrite (Hmiss f (or_introl eq_refl)).
    apply IH. intros x Hx. apply Hmiss. now right. }
  assert (files (run_loop vpnFiles (read ++ [token]) (LoopState [] vpnFiles))
          = files (run_loop vpnFiles read (LoopState [] vpnFiles))) as Hsame.
  { rewrite run_loop_snoc.
    destruct (loop_body_cases vpnFiles
                (run_loop vpnFiles read (LoopState [] vpnFiles)) token)
      as [_ [(Hne & _) | (_ & Heq)]]; [| exact Heq].
    rewrite (run_loop_possibleLocation vpnFiles read (LoopState [] vpnFiles)) in Hne.
    simpl in Hne. contradiction. }
  split; [exact Hnone |]. split; [exact Hsame |]. split.
  - unfold pickMostPossibleFile.
    destruct (Nat.eqb (List.length vpnFiles) 1); [reflexivity | exact Hsame].
  - intros vpnFile Hin. split; [now apply Hmiss |].
    intros Hocc. apply includes_occurs in Hocc.
    rewrite (Hmiss vpnFile Hin) in Hocc. discriminate.
Qed.

Lemma narrowing_case_sensitive_witness :
  filteredFiles ["vpn_france_paris.ovpn"; "vpn_france_lyon.ovpn"] ([] ++ ["Paris"])
  = []
  /\ files (run_loop ["vpn_france_paris.ovpn"; "vpn_france_lyon.ovpn"]
                     ([] ++ ["Paris"])
                     (LoopState [] ["vpn_france_paris.ovpn"; "vpn_france_lyon.ovpn"]))
     = files (run_loop ["vpn_france_paris.ovpn"; "vpn_france_lyon.ovpn"] []
                       (LoopState [] ["vpn_france_paris.ovpn"; "vpn_france_lyon.ovpn"]))
  /\ pickMostPossibleFile ["vpn_france_paris.ovpn"; "vpn_france_lyon.ovpn"]
       ([] ++ ["Paris"])
     = pickMostPossibleFile ["vpn_france_paris.ovpn"; "vpn_france_lyon.ovpn"] []
  /\ (forall vpnFile,
        In vpnFile ["vpn_france_paris.ovpn"; "vpn_france_lyon.ovpn"] ->
        Js.includes (normalize vpnFile) (Js.join " " ([] ++ ["Paris"])) = false
        /\ ~ occurs_in (Js.join " " ([] ++ ["Paris"])) (normalize vpnFile)).
Proof.
  apply (narrowing_case_sensitive
           ["vpn_france_paris.ovpn"; "vpn_france_lyon.ovpn"] [] "Paris").
  vm_compute. reflexivity.
Defined.

(** The lower-case spelling of the same token is in the Paris file: what
    keeps [Paris] from matching is the case of its first letter alone. *)
Example only_in_other_case_paris :
  only_in_other_case (normalize "vpn_france_paris.ovpn") "Paris" = true
  /\ Js.includes (Js.toLowerCase (normalize "vpn_france_paris.ovpn"))
                 (Js.toLowerCase "Paris") = true
  /\ Js.includes (normalize "vpn_france_paris.ovpn") "paris" = true.
Proof. vm_compute. repeat split. Qed.

(** The token is not normalized and its case counts: neither [Paris] nor
    [par_is] picks the Paris file. *)
Example pickMostPossibleFile_capital_token :
  pickMostPossibleFile ["vpn_france_paris.ovpn"; "vpn_france_lyon.ovpn"] ["Paris"]
  = ["vpn_france_paris.ovpn"; "vpn_france_lyon.ovpn"].
Proof. vm_compute. reflexivity. Qed.

Example pickMostPossibleFile_token_kept_raw :
  pickMostPossibleFile ["vpn_france_paris.ovpn"; "vpn_france_lyon.ovpn"] ["par_is"]
  = ["vpn_france_paris.ovpn"; "vpn_france_lyon.ovpn"].
Proof. vm_compute. reflexivity. Qed.

(** ** Arrays and splitting *)

Lemma rev_string_acc (acc s : string) :
  Js.rev_string acc s = (Js.rev_string EmptyString s ++ acc)%string.
Proof.
  revert acc; induction s as [| c s IH]; intros acc; simpl; [reflexivity |].
  rewrite (IH (String c acc)), (IH (String c EmptyString)).
  now rewrite append_assoc.
Qed.

Lemma split_from_head (sep : ascii) (cur s : string) :
  hd_error (Js.split_from sep cur s)
  = Some (Js.rev_string EmptyString cur ++ before_first sep s)%string.
Proof.
  revert cur; induction s as [| c s IH]; intros cur; simpl.
  - now rewrite append_empty_r.
  - destruct (Ascii.eqb c sep); simpl.
    + now rewrite append_empty_r.
    + rewrite IH. simpl. rewrite (rev_string_acc (String c EmptyString)).
      now rewrite append_assoc.
Qed.

(** The first element of [s.split(sep)] is [s] cut at the first [sep]. *)
Lemma split_head (sep : ascii) (s : string) :
  hd_error (Js.split sep s) = Some (before_first sep s).
Proof. unfold Js.split. now rewrite split_from_head. Qed.

Lemma before_first_spec (sep : ascii) (s : string) :
  has_char sep (before_first sep s) = false
  /\ (s = before_first sep s
      \/ exists rest, s = (before_first sep s ++ String sep rest)%string).
Proof.
  induction s as [| c s [IHno IHcut]]; simpl.
  - split; [reflexivity | now left].
  - destruct (Ascii.eqb_spec c sep) as [-> | Hc]; simpl.
    + split; [reflexivity |]. right. now exists s.
    + destruct (Ascii.eqb_spec c sep) as [| _]; [contradiction |].
      split; [exact IHno |].
      destruct IHcut as [IH | [rest IH]].
      * left. now rewrite <- IH.
      * right. exists rest. now rewrite <- IH.
Qed.

Lemma indexOf_from_first (xs : list string) (x : string) (i : Z) :
  In x xs ->
  exists before after,
    xs = before ++ x :: after
    /\ ~ In x before
    /\ Js.indexOf_from xs x i = (i + Z.of_nat (List.length before))%Z.
Proof.
  revert i; induction xs as [| y xs IH]; intros i Hin; [contradiction |].
  simpl. destruct (String.eqb_spec y x) as [-> | Hyx].
  - exists [], xs. simpl. repeat split; [tauto | lia].
  - destruct Hin as [Heq | Hin]; [contradiction |].
    destruct (IH (i + 1)%Z Hin) as (before & after & -> & Hnot & Hidx).
    exists (y :: before), after. simpl. repeat split.
    + intros [H | H]; [contradiction | now apply Hnot].
    + rewrite Hidx. lia.
Qed.

Lemma slice_at_length {A : Type} (before after : list A) :
  Js.slice (Z.of_nat (List.length before)) (before ++ after) = after.
Proof.
  unfold Js.slice. rewrite length_app.
  destruct (Z.ltb_spec (Z.of_nat (List.length before)) 0) as [H | _]; [lia |].
  rewrite Z.min_l by lia. rewrite Nat2Z.id.
  rewrite skipn_app, Nat.sub_diag, skipn_all. reflexivity.
Qed.

(** [tokens.slice(tokens.indexOf(location))] when [location] is a token:
    the tokens from its first occurrence on. *)
Lemma slice_indexOf (tokens : list string) (location : string) :
  In location tokens ->
  exists before after,
    tokens = before ++ location :: after
    /\ ~ In location before
    /\ Js.slice (Js.indexOf tokens location) tokens = location :: after.
Proof.
  intros Hin. unfold Js.indexOf.
  destruct (indexOf_from_first tokens location 0 Hin)
    as (before & after & Heq & Hnot & Hidx).
  exists before, after. repeat split; [exact Heq | exact Hnot |].
  rewrite Hidx, Heq. simpl Z.add. apply slice_at_length.
Qed.

Lemma slice_indexOf_head (location : string) (after : list string) :
  Js.slice (Js.indexOf (location :: after) location) (location :: after)
  = location :: after.
Proof.
  unfold Js.indexOf. simpl Js.indexOf_from. rewrite String.eqb_refl.
  reflexivity.
Qed.

(** ** The VPN handlers *)

Section VpnHandlers.

Variable World : Type.
Variable svc : services World.
Variable Ansible : ansible_action_types.

Local Abbreviation folder := (configService_get svc "VPN.FolderFilesPath").
Local Abbreviation queue := (configService_get svc "Rabbit.AnsibleQueueName").

Lemma getLocationVpnFiles_run (location : string) (w : World) :
  getLocationVpnFiles svc location w
  = match filesService_getDirFiles svc folder w with
    | (Returned dirFiles, w1) =>
        (Returned (filter (matchesLocation location) dirFiles), w1, [GetDirFiles folder])
    | (Thrown e, w1) => (Thrown e, w1, [GetDirFiles folder])
    end.
Proof.
  unfold getLocationVpnFiles, bind, call, ret.
  destruct (filesService_getDirFiles svc _ w) as [[dirFiles | e] w1]; reflexivity.
Qed.

(** What the broker is asked once the payload is known. *)
Lemma send_run (payload : string) (w : World) :
  (_ <- call CreateConnection (rabbitService_createConnection svc) ;;
   call (SendToChannelWithResponse queue payload)
        (rabbitService_sendToChannelWithResponse svc queue payload)) w
  = match rabbitService_createConnection svc w with
    | (Returned _, w1) =>
        (fst (rabbitService_sendToChannelWithResponse svc queue payload w1),
         snd (rabbitService_sendToChannelWithResponse svc queue payload w1),
         [CreateConnection; SendToChannelWithResponse queue payload])
    | (Thrown e, w1) => (Thrown e, w1, [CreateConnection])
    end.
Proof.
  unfold bind, call.
  destruct (rabbitService_createConnection svc w) as [[[] | e] w1]; [| reflexivity].
  destruct (rabbitService_sendToChannelWithResponse svc queue payload w1);
    reflexivity.
Qed.

Lemma send_run_calls (payload : string) (w : World) (q p : string) :
  In (SendToChannelWithResponse q p)
     (calls_of ((_ <- call CreateConnection (rabbitService_createConnection svc) ;;
                 call (SendToChannelWithResponse queue payload)
                      (rabbitService_sendToChannelWithResponse svc queue payload)) w)) ->
  q = queue /\ p = payload.
Proof.
  rewrite send_run.
  destruct (rabbitService_createConnection svc w) as [[[] | e] w1];
    unfold calls_of; simpl.
  - intros [H | [H | []]]; [discriminate | now inversion H].
  - intros [H | []]; discriminate.
Qed.

Lemma startVpnHandler_run (location : string) (tokens : list string) (w : World) :
  startVpnHandler svc Ansible location tokens w
  = match filesService_getDirFiles svc folder w with
    | (Returned dirFiles, w1) =>
        match pickMostPossibleFile (filter (matchesLocation location) dirFiles)
                (Js.slice (Js.indexOf tokens location) tokens) with
        | [] =>
            (Thrown (TypeError "Cannot read properties of undefined (reading 'split')"),
             w1, [GetDirFiles folder])
        | vpnFilePath :: _ =>
            let payload :=
              Json.stringify (start_payload Ansible (Some (before_first "." vpnFilePath))) in
            match (_ <- call CreateConnection (rabbitService_createConnection svc) ;;
                   call (SendToChannelWithResponse queue payload)
                        (rabbitService_sendToChannelWithResponse svc queue payload)) w1 with
            | (o, w2, calls) => (o, w2, GetDirFiles folder :: calls)
            end
        end
    | (Thrown e, w1) => (Thrown e, w1, [GetDirFiles folder])
    end.
Proof.
  unfold startVpnHandler. unfold bind at 1. rewrite getLocationVpnFiles_run.
  destruct (filesService_getDirFiles svc folder w) as [[dirFiles | e] w1];
    [| reflexivity].
  destruct (pickMostPossibleFile _ _) as [| vpnFilePath others]; [reflexivity |].
  rewrite split_head. reflexivity.
Qed.

End VpnHandlers.

(** C5.  The wire payload: whatever a VPN handler sends to the queue is the
    serialization of an object with the members [name] and [props], in that
    order; [name] is the action type; [props] is empty for stop and status,
    and for start it holds [vpnFileName] alone, the first candidate left by
    the disambiguator cut at its first dot. *)
Theorem vpn_payload_shape (World : Type) (svc : services World)
    (Ansible : ansible_action_types) (w : World) (queueName payload : string) :
  (forall location tokens,
      In (SendToChannelWithResponse queueName payload)
         (calls_of (startVpnHandler svc Ansible location tokens w)) ->
      exists dirFiles w1 vpnFilePath others vpnFileName,
        filesService_getDirFiles svc (configService_get svc "VPN.FolderFilesPath") w
        = (Returned dirFiles, w1)
        /\ pickMostPossibleFile
             (filter (fun name =>
                        Js.includes (Js.toLowerCase name) (Js.toLowerCase location))
                     dirFiles)
             (Js.slice (Js.indexOf tokens location) tokens)
           = vpnFilePath :: others
        /\ has_char "." vpnFileName = false
        /\ (vpnFilePath = vpnFileName
            \/ exists rest, vpnFilePath = (vpnFileName ++ String "." rest)%string)
        /\ payload
           = Json.stringify
               (JObject [("name", JString (VpnStart Ansible));
                         ("props", JObject [("vpnFileName", JString vpnFileName)])]))
  /\ (In (SendToChannelWithResponse queueName payload)
         (calls_of (stopVpnHandler svc Ansible w)) ->
      payload = Json.stringify (JObject [("name", JString (VpnStop Ansible));
                                         ("props", JObject [])]))
  /\ (In (SendToChannelWithResponse queueName payload)
         (calls_of (vpnStatusHandler svc Ansible w)) ->
      payload = Json.stringify (JObject [("name", JString (VpnStatus Ansible));
                                         ("props", JObject [])])).
Proof.
  split; [| split].
  - intros location tokens. rewrite startVpnHandler_run.
    destruct (filesService_getDirFiles svc _ w) as [[dirFiles | e] w1] eqn:Hdir.
    + destruct (pickMostPossibleFile _ _) as [| vpnFilePath others] eqn:Hpick.
      * unfold calls_of; simpl. intros [H | []]; discriminate.
      * cbv zeta.
        match goal with
        | |- context [bind ?m ?k w1] =>
            pose proof (send_run_calls World svc
                          (Json.stringify
                             (start_payload Ansible (Some (before_first "." vpnFilePath))))
                          w1 queueName payload) as Hsend;
            destruct (bind m k w1) as [[o w2] calls]
        end.
        unfold calls_of in *; simpl in *.
        intros [H | H]; [discriminate |].
        destruct (Hsend H) as [_ ->].
        destruct (before_first_spec "." vpnFilePath) as [Hno Hcut].
        exists dirFiles, w1, vpnFilePath, others, (before_first "." vpnFilePath).
        repeat split; try assumption; reflexivity.
    + unfold calls_of; simpl. intros [H | []]; discriminate.
  - unfold stopVpnHandler. intros H.
    now destruct (send_run_calls World svc _ w queueName payload H) as [_ ->].
  - unfold vpnStatusHandler. intros H.
    now destruct (send_run_calls World svc _ w queueName payload H) as [_ ->].
Qed.

Lemma startVpnHandler_window (World : Type) (svc : services World)
    (Ansible : ansible_action_types) (location : string)
    (tokens window : list string) (w : World) :
  Js.slice (Js.indexOf tokens location) tokens = window ->
  startVpnHandler svc Ansible location tokens w
  = match getLocationVpnFiles svc location w with
    | (Thrown e, w1, calls) => (Thrown e, w1, calls)
    | (Returned vpnFiles, w1, calls) =>
        match pickMostPossibleFile vpnFiles window with
        | [] =>
            (Thrown (TypeError
                       "Cannot read properties of undefined (reading 'split')"),
             w1, calls)
        | vpnFilePath :: _ =>
            let queueName := configService_get svc "Rabbit.AnsibleQueueName" in
            let payload :=
              Json.stringify
                (start_payload Ansible (hd_error (Js.split "." vpnFilePath))) in
            match (_ <- call CreateConnection (rabbitService_createConnection svc) ;;
                   call (SendToChannelWithResponse queueName payload)
                        (rabbitService_sendToChannelWithResponse svc
                           queueName payload)) w1 with
            | (answer, w2, sent) => (answer, w2, calls ++ sent)
            end
        end
    end.
Proof.
  intros <-. unfold startVpnHandler. unfold bind at 1.
  destruct (getLocationVpnFiles svc location w) as [[[vpnFiles | e] w1] calls];
    [| reflexivity].
  destruct (pickMostPossibleFile vpnFiles _) as [| vpnFilePath others].
  - unfold throw. now rewrite app_nil_r.
  - reflexivity.
Qed.

(** C7.  The token window: when the location is one of the tokens, the
    window cut out of them starts at the first occurrence of the location
    and runs to the end; that window is what [pickMostPossibleFile] is
    given, next to the files of the location, and the file named in the
    request is the first one it leaves.  The tokens before the location
    have no part in what the handler does. *)
Theorem startVpnHandler_token_window (tokens : list string) (location : string) :
  In location tokens ->
  exists before after,
    tokens = before ++ location :: after
    /\ ~ In location before
    /\ Js.slice (Js.indexOf tokens location) tokens = location :: after
    /\ (forall (World : Type) (svc : services World)
               (Ansible : ansible_action_types) (w : World),
          startVpnHandler svc Ansible location tokens w
          = startVpnHandler svc Ansible location (location :: after) w)
    /\ (forall (World : Type) (svc : services World)
               (Ansible : ansible_action_types) (w : World),
          startVpnHandler svc Ansible location tokens w
           = match getLocationVpnFiles svc location w with
             | (Thrown e, w1, calls) => (Thrown e, w1, calls)
             | (Returned vpnFiles, w1, calls) =>
                 match pickMostPossibleFile vpnFiles (location :: after) with
                 | [] =>
                     (Thrown (TypeError
                                "Cannot read properties of undefined (reading 'split')"),
                      w1, calls)
                 | vpnFilePath :: _ =>
                     let queueName :=
                       configService_get svc "Rabbit.AnsibleQueueName" in
                     let payload :=
                       Json.stringify
                         (start_payload Ansible
                            (hd_error (Js.split "." vpnFilePath))) in
                     match (_ <- call CreateConnection
                                      (rabbitService_createConnection svc) ;;
                            call (SendToChannelWithResponse queueName payload)
                                 (rabbitService_sendToChannelWithResponse svc
                                    queueName payload)) w1 with
                     | (answer, w2, sent) => (answer, w2, calls ++ sent)
                     end
                 end
             end).
Proof.
  intros Hin.
  destruct (slice_indexOf tokens location Hin) as (before & after & Heq & Hnot & Hslice).
  exists before, after. repeat split; try assumption.
  - intros World svc Ansible w.
    rewrite !startVpnHandler_run, Hslice, slice_indexOf_head. reflexivity.
  - intros World svc Ansible w. now apply startVpnHandler_window.
Qed.

Lemma startVpnHandler_token_window_witness :
  exists before after,
    ["vpn"; "start"; "france"; "paris"] = before ++ "france" :: after
    /\ ~ In "france" before
    /\ Js.slice (Js.indexOf ["vpn"; "start"; "france"; "paris"] "france")
                ["vpn"; "start"; "france"; "paris"]
       = "france" :: after
    /\ (forall (World : Type) (svc : services World)
               (Ansible : ansible_action_types) (w : World),
          startVpnHandler svc Ansible "france" ["vpn"; "start"; "france"; "paris"] w
          = startVpnHandler svc Ansible "france" ("france" :: after) w)
    /\ (forall (World : Type) (svc : services World)
               (Ansible : ansible_action_types) (w : World),
          startVpnHandler svc Ansible "france" ["vpn"; "start"; "france"; "paris"] w
           = match getLocationVpnFiles svc "france" w with
             | (Thrown e, w1, calls) => (Thrown e, w1, calls)
             | (Returned vpnFiles, w1, calls) =>
                 match pickMostPossibleFile vpnFiles ("france" :: after) with
                 | [] =>
                     (Thrown (TypeError
                                "Cannot read properties of undefined (reading 'split')"),
                      w1, calls)
                 | vpnFilePath :: _ =>
                     let queueName :=
                       configService_get svc "Rabbit.AnsibleQueueName" in
                     let payload :=
                       Json.stringify
                         (start_payload Ansible
                            (hd_error (Js.split "." vpnFilePath))) in
                     match (_ <- call CreateConnection
                                      (rabbitService_createConnection svc) ;;
                            call (SendToChannelWithResponse queueName payload)
                                 (rabbitService_sendToChannelWithResponse svc
                                    queueName payload)) w1 with
                     | (answer, w2, sent) => (answer, w2, calls ++ sent)
                     end
                 end
             end).
Proof.
  apply (startVpnHandler_token_window ["vpn"; "start"; "france"; "paris"] "france").
  simpl. right. right. left. reflexivity.
Defined.

(** The window at work: with the token [paris] ahead of the location [fr],
    the request names the Lyon file, the first one left for the window
    [fr], [lyon], and not the Paris file, which all the tokens, or none,
    would give. *)
Example startVpnHandler_window_used :
  calls_of (startVpnHandler
              (sample_services ["fr paris.ovpn"; "fr lyon.ovpn"])
              sample_action_types "fr" ["paris"; "fr"; "lyon"] tt)
  = [GetDirFiles "VPN.FolderFilesPath";
     CreateConnection;
     SendToChannelWithResponse "Rabbit.AnsibleQueueName"
       (Json.stringify
          (JObject [("name", JString "VpnStart");
                    ("props", JObject [("vpnFileName", JString "fr lyon")])]))]
  /\ pickMostPossibleFile ["fr paris.ovpn"; "fr lyon.ovpn"] ["fr"; "lyon"]
     = ["fr lyon.ovpn"]
  /\ pickMostPossibleFile ["fr paris.ovpn"; "fr lyon.ovpn"] ["paris"; "fr"; "lyon"]
     = ["fr paris.ovpn"]
  /\ pickMostPossibleFile ["fr paris.ovpn"; "fr lyon.ovpn"] []
     = ["fr paris.ovpn"; "fr lyon.ovpn"].
Proof. vm_compute. repeat split. Qed.

(** C8.  No candidate: when the enumeration, filtered by the location,
    leaves no file, [startVpnHandler] throws; the one call it has made is
    the enumeration itself, so no connection is opened, nothing is sent, and
    nothing is tried again. *)
Theorem startVpnHandler_no_candidate (World : Type) (svc : services World)
    (Ansible : ansible_action_types) (location : string) (tokens : list string)
    (w : World) :
  result_of (getLocationVpnFiles svc location w) = Returned [] ->
  (exists text,
      result_of (startVpnHandler svc Ansible location tokens w)
      = Thrown (TypeError text))
  /\ calls_of (startVpnHandler svc Ansible location tokens w)
     = [GetDirFiles (configService_get svc "VPN.FolderFilesPath")]
  /\ world_of (startVpnHandler svc Ansible location tokens w)
     = world_of (getLocationVpnFiles svc location w).
Proof.
  rewrite startVpnHandler_run, getLocationVpnFiles_run.
  destruct (filesService_getDirFiles svc _ w) as [[dirFiles | e] w1];
    unfold result_of, calls_of, world_of; simpl; [| discriminate].
  intros H. injection H as ->.
  rewrite pickMostPossibleFile_no_candidates.
  simpl. repeat split. eexists. reflexivity.
Qed.

Lemma startVpnHandler_no_candidate_witness :
  (exists text,
      result_of (startVpnHandler (sample_services ["vpn_germany.ovpn"]) sample_action_types
                   "france" ["vpn"; "start"; "france"] tt)
      = Thrown (TypeError text))
  /\ calls_of (startVpnHandler (sample_services ["vpn_germany.ovpn"]) sample_action_types
                 "france" ["vpn"; "start"; "france"] tt)
     = [GetDirFiles
          (configService_get (sample_services ["vpn_germany.ovpn"]) "VPN.FolderFilesPath")]
  /\ world_of (startVpnHandler (sample_services ["vpn_germany.ovpn"]) sample_action_types
                 "france" ["vpn"; "start"; "france"] tt)
     = world_of (getLocationVpnFiles (sample_services ["vpn_germany.ovpn"]) "france" tt).
Proof.
  apply (startVpnHandler_no_candidate unit (sample_services ["vpn_germany.ovpn"])
           sample_action_types "france" ["vpn"; "start"; "france"] tt).
  reflexivity.
Defined.

(** The end-to-end run of the spec: with the Paris file listed first, the
    start request for [france], [paris] names [vpn_france_paris]. *)
Example startVpnHandler_sends_paris :
  calls_of (startVpnHandler
              (sample_services ["vpn_france_paris.ovpn"; "vpn_germany.ovpn"])
              sample_action_types "france" ["vpn"; "start"; "france"; "paris"] tt)
  = [GetDirFiles "VPN.FolderFilesPath";
     CreateConnection;
     SendToChannelWithResponse "Rabbit.AnsibleQueueName"
       (Json.stringify
          (JObject [("name", JString "VpnStart");
                    ("props", JObject [("vpnFileName", JString "vpn_france_paris")])]))].
Proof. vm_compute. reflexivity. Qed.

Lemma filter_matchesLocation_recase (location : string) (mask : list bool)
    (masks : string -> list bool) (dirFiles : list string) :
  filter (matchesLocation (recase mask location))
         (map (fun name => recase (masks name) name) dirFiles)
  = map (fun name => recase (masks name) name)
        (filter (matchesLocation location) dirFiles).
Proof.
  induction dirFiles as [| name dirFiles IH]; simpl; [reflexivity |].
  rewrite IH.
  assert (matchesLocation (recase mask location) (recase (masks name) name)
          = matchesLocation location name) as ->
    by (unfold matchesLocation; now rewrite !toLowerCase_recase).
  destruct (matchesLocation location name); reflexivity.
Qed.

(** C9.  Case-insensitive selection: swapping the case of letters of the
    location, and of letters of the listed file names, selects the same
    files (each under its new spelling); so does the location put in
    lower case. *)
Theorem getLocationVpnFiles_case_insensitive (World : Type) (svc : services World)
    (location : string) (w : World) (mask : list bool)
    (masks : string -> list bool) :
  getLocationVpnFiles (rename_dirFiles (fun name => recase (masks name) name) svc)
                      (recase mask location) w
  = match getLocationVpnFiles svc location w with
    | (Returned vpnFiles, w1, calls) =>
        (Returned (map (fun name => recase (masks name) name) vpnFiles), w1, calls)
    | other => other
    end
  /\ getLocationVpnFiles svc (recase mask location) w
     = getLocationVpnFiles svc location w
  /\ getLocationVpnFiles svc (Js.toLowerCase location) w
     = getLocationVpnFiles svc location w.
Proof.
  rewrite !getLocationVpnFiles_run.
  cbn [rename_dirFiles filesService_getDirFiles configService_get].
  split; [| split].
  - destruct (filesService_getDirFiles svc _ w) as [[dirFiles | e] w1];
      [| reflexivity].
    now rewrite filter_matchesLocation_recase.
  - destruct (filesService_getDirFiles svc _ w) as [[dirFiles | e] w1];
      [| reflexivity].
    rewrite (filter_ext (matchesLocation (recase mask location))
                        (matchesLocation location)); [reflexivity |].
    intros name. unfold matchesLocation. now rewrite toLowerCase_recase.
  - destruct (filesService_getDirFiles svc _ w) as [[dirFiles | e] w1];
      [| reflexivity].
    unfold matchesLocation. now rewrite toLowerCase_idempotent.
Qed.

(** ** Retrying once *)

Section RetryOnce.

Variables World A : Type.
Variable fn : World -> outcome A * World.
Variable recovery : World -> World.

Lemma runFunctionWithRetry_run (w : World) :
  runFunctionWithRetry (call Attempt fn) (perform Recovery recovery) w
  = match fn w with
    | (Returned a, w1) => (Returned a, w1, [Attempt])
    | (Thrown _, w1) =>
        (fst (fn (recovery w1)), snd (fn (recovery w1)),
         [Attempt; Recovery; Attempt])
    end.
Proof.
  unfold runFunctionWithRetry, try_catch, bind, perform, call.
  destruct (fn w) as [[a | e] w1]; [reflexivity |].
  destruct (fn (recovery w1)) as [o w2]. reflexivity.
Qed.

(** C2.  Retry once: the action is attempted; when the attempt returns,
    that is the result and nothing else is called; when it throws, the
    recovery callback is called once, then the action once more, in the
    world the recovery left, and what the second attempt does, return or
    throw, is the result.  The recovery callback is called at most once and
    the action at most twice. *)
Theorem runFunctionWithRetry_once (w : World) :
  match fn w with
  | (Returned a, w1) =>
      runFunctionWithRetry (call Attempt fn) (perform Recovery recovery) w
      = (Returned a, w1, [Attempt])
  | (Thrown _, w1) =>
      match fn (recovery w1) with
      | (second, w2) =>
          runFunctionWithRetry (call Attempt fn) (perform Recovery recovery) w
          = (second, w2, [Attempt; Recovery; Attempt])
      end
  end
  /\ count_occ retry_event_eq_dec
       (calls_of (runFunctionWithRetry (call Attempt fn) (perform Recovery recovery) w))
       Recovery <= 1
  /\ count_occ retry_event_eq_dec
       (calls_of (runFunctionWithRetry (call Attempt fn) (perform Recovery recovery) w))
       Attempt <= 2.
Proof.
  rewrite runFunctionWithRetry_run.
  destruct (fn w) as [[a | e] w1].
  - repeat split; unfold calls_of; simpl; lia.
  - destruct (fn (recovery w1)) as [second w2].
    repeat split; unfold calls_of; simpl; lia.
Qed.

End RetryOnce.

(** An action that throws while access is stale and returns once it has
    been refreshed: the world is the flag that access is fresh. *)
Example runFunctionWithRetry_recovers :
  runFunctionWithRetry
    (call Attempt (fun fresh : bool =>
                     if fresh then (Returned "OK", fresh)
                     else (Thrown (Error "The access token expired"), fresh)))
    (perform Recovery (fun _ => true)) false
  = (Returned "OK", true, [Attempt; Recovery; Attempt]).
Proof. reflexivity. Qed.

Example runFunctionWithRetry_fails_twice :
  runFunctionWithRetry
    (call Attempt (fun attempts : nat =>
                     (Thrown (Error (if Nat.eqb attempts 0 then "first" else "second"))
                      : outcome unit,
                      S attempts)))
    (perform Recovery (fun attempts => attempts)) 0
  = (Thrown (Error "second"), 2, [Attempt; Recovery; Attempt]).
Proof. reflexivity. Qed.

(** ** The commands controller *)

Section ExecuteFacts.

Variable World : Type.
Variable getDevices : World -> outcome (list SpotifyApi.UserDevice) * World.
Variable handleAction :
  string -> SpotifyApi.UserDevice -> option string -> World -> outcome unit * World.
Variable refreshAccess : World -> World.

(** X14.  With a target device at hand, [execute] answers 200 when the first or
    the second attempt of the action returns, and 500 with the message of
    the second failure otherwise; access is refreshed between the two
    attempts and never otherwise. *)
Lemma execute_retries_once (name : string) (value deviceType : option string)
    (w w0 : World) (d : SpotifyApi.UserDevice) (calls0 : list spotify_event) :
  getTargetDevice getDevices deviceType w = (Returned (Some d), w0, calls0) ->
  truthy (SpotifyApi.id d) = true ->
  execute getDevices handleAction refreshAccess name value deviceType w
  = match handleAction name d value w0 with
    | (Returned _, w1) =>
        (Returned (Response 200 (json_message "OK")), w1,
         calls0 ++ [HandleAction name d value])
    | (Thrown _, w1) =>
        match handleAction name d value (refreshAccess w1) with
        | (Returned _, w2) =>
            (Returned (Response 200 (json_message "OK")), w2,
             calls0 ++ [HandleAction name d value; RefreshAccess;
                        HandleAction name d value])
        | (Thrown e, w2) =>
            (Returned (Response 500 (json_message (message e))), w2,
             calls0 ++ [HandleAction name d value; RefreshAccess;
                        HandleAction name d value; LoggerError (message e)])
        end
    end.
Proof.
  intros Hdev Hid. unfold execute. unfold bind at 1. rewrite Hdev, Hid.
  cbn [negb]. unfold try_catch, bind at 1, runFunctionWithRetry, try_catch,
    bind, perform, call, ret.
  destruct (handleAction name d value w0) as [[[] | e1] w1]; [reflexivity |].
  destruct (handleAction name d value (refreshAccess w1)) as [[[] | e2] w2];
    reflexivity.
Qed.

End ExecuteFacts.

(** * Further properties *)

(** ** Narrowing as the longest matching run of tokens *)

Lemma Sublist_nil_l {A : Type} (l : list A) : Sublist [] l.
Proof. induction l; constructor; assumption. Qed.

Lemma Sublist_of_nil {A : Type} (l : list A) : Sublist l [] -> l = [].
Proof. inversion 1; reflexivity. Qed.

Lemma Sublist_same_length {A : Type} (l1 l2 : list A) :
  Sublist l1 l2 -> List.length l2 <= List.length l1 -> l1 = l2.
Proof.
  induction 1 as [| x l1 l2 Hsub IH | x l1 l2 Hsub IH]; simpl; intros Hlen.
  - reflexivity.
  - apply Sublist_length in Hsub. lia.
  - f_equal. apply IH. lia.
Qed.

Lemma Sublist_filter_impl {A : Type} (p q : A -> bool) (l : list A) :
  (forall x, p x = true -> q x = true) -> Sublist (filter p l) (filter q l).
Proof.
  intros Hpq. induction l as [| x l IH]; simpl; [constructor |].
  destruct (p x) eqn:Hp.
  - rewrite (Hpq x Hp). now constructor.
  - destruct (q x); [now constructor | exact IH].
Qed.

Lemma join_app (sep : string) (first more : list string) :
  exists tail : string,
    Js.join sep (first ++ more) = (Js.join sep first ++ tail)%string.
Proof.
  unfold Js.join. induction first as [| x first [tail IH]].
  - exists (String.concat sep more). reflexivity.
  - destruct first as [| y first].
    + destruct more as [| z more].
      * exists EmptyString. simpl. now rewrite append_empty_r.
      * exists (sep ++ String.concat sep (z :: more))%string. reflexivity.
    + exists tail.
      change (String.concat sep ((x :: y :: first) ++ more))
        with (x ++ sep ++ String.concat sep ((y :: first) ++ more))%string.
      change (String.concat sep (x :: y :: first))
        with (x ++ sep ++ String.concat sep (y :: first))%string.
      rewrite IH. now rewrite !append_assoc.
Qed.

Lemma occurs_in_prefix (p tail s : string) :
  occurs_in (p ++ tail) s -> occurs_in p s.
Proof.
  intros (a & b & ->). exists a, (tail ++ b)%string.
  now rewrite append_assoc.
Qed.

(** A longer phrase is matched by fewer candidates. *)
Lemma filteredFiles_longer (vpnFiles read more : list string) :
  Sublist (filteredFiles vpnFiles (read ++ more)) (filteredFiles vpnFiles read).
Proof.
  unfold filteredFiles. apply Sublist_filter_impl. intros vpnFile H.
  apply includes_occurs in H. apply includes_occurs.
  destruct (join_app " " read more) as [tail Htail]. rewrite Htail in H.
  now apply occurs_in_prefix in H.
Qed.

Lemma includes_empty (s : string) : Js.includes s EmptyString = true.
Proof. rewrite includes_unfold. destruct s; reflexivity. Qed.

Lemma filteredFiles_no_token (vpnFiles : list string) :
  filteredFiles vpnFiles [] = vpnFiles.
Proof.
  unfold filteredFiles. simpl Js.join.
  induction vpnFiles as [| f fs IH]; simpl; [reflexivity |].
  now rewrite includes_empty, IH.
Qed.

(** While the whole phrase matches some candidate, the working set is the
    list of its matches. *)
Lemma run_loop_matching (vpnFiles read : list string) :
  filteredFiles vpnFiles read <> [] ->
  files (run_loop vpnFiles read (LoopState [] vpnFiles))
  = filteredFiles vpnFiles read.
Proof.
  induction read as [| token read IH] using rev_ind; intros Hne.
  - simpl. now rewrite filteredFiles_no_token.
  - assert (filteredFiles vpnFiles read <> []) as Hprev.
    { intros Hnil. apply Hne. apply Sublist_of_nil. rewrite <- Hnil.
      apply filteredFiles_longer. }
    specialize (IH Hprev). rewrite run_loop_snoc.
    destruct (loop_body_cases vpnFiles
                (run_loop vpnFiles read (LoopState [] vpnFiles)) token)
      as [_ Hcases].
    cbv zeta in Hcases.
    rewrite (run_loop_possibleLocation vpnFiles read (LoopState [] vpnFiles)) in Hcases.
    simpl app in Hcases.
    destruct Hcases as [(_ & _ & Heq) | (Hno & Heq)]; [exact Heq |].
    rewrite Heq, IH. symmetry. apply Sublist_same_length.
    + apply filteredFiles_longer.
    + rewrite IH in Hno.
      destruct (Nat.le_gt_cases (List.length (filteredFiles vpnFiles read))
                  (List.length (filteredFiles vpnFiles (read ++ [token]))))
        as [Hle | Hgt]; [exact Hle |].
      exfalso. apply Hno. split; assumption.
Qed.

(** Once the phrase matches no candidate, the working set stays. *)
Lemma run_loop_after_miss (vpnFiles read rest : list string) :
  filteredFiles vpnFiles read = [] ->
  files (run_loop vpnFiles (read ++ rest) (LoopState [] vpnFiles))
  = files (run_loop vpnFiles read (LoopState [] vpnFiles)).
Proof.
  intros Hmiss. induction rest as [| token rest IH] using rev_ind.
  - now rewrite app_nil_r.
  - rewrite app_assoc, run_loop_snoc.
    destruct (loop_body_cases vpnFiles
                (run_loop vpnFiles (read ++ rest) (LoopState [] vpnFiles)) token)
      as [_ Hcases].
    cbv zeta in Hcases.
    rewrite (run_loop_possibleLocation vpnFiles (read ++ rest)
               (LoopState [] vpnFiles)) in Hcases.
    simpl app in Hcases.
    destruct Hcases as [(Hne & _) | (_ & Heq)]; [| now rewrite Heq].
    exfalso. apply Hne. apply Sublist_of_nil. rewrite <- Hmiss.
    rewrite <- app_assoc. apply filteredFiles_longer.
Qed.

Lemma loop_body_miss (vpnFiles : list string) (st : loop_state) (token : string) :
  filteredFiles vpnFiles (possibleLocation st ++ [token]) = [] ->
  files (loop_body vpnFiles st token) = files st.
Proof. intros H. unfold loop_body. now rewrite H. Qed.

(** X1.  When the tokens, joined by blanks, occur in some normalized
    candidate, the result is exactly the list of the candidates in which
    they occur. *)
Theorem pickMostPossibleFile_all_tokens_match (vpnFiles tokens : list string) :
  filteredFiles vpnFiles tokens <> [] ->
  pickMostPossibleFile vpnFiles tokens = filteredFiles vpnFiles tokens.
Proof.
  intros Hne. unfold pickMostPossibleFile.
  destruct (Nat.eqb (List.length vpnFiles) 1) eqn:Hone.
  - symmetry. apply Sublist_same_length; [apply Sublist_filter |].
    apply Nat.eqb_eq in Hone. rewrite Hone.
    destruct (filteredFiles vpnFiles tokens); [contradiction | simpl; lia].
  - now apply run_loop_matching.
Qed.

Lemma pickMostPossibleFile_all_tokens_match_witness :
  pickMostPossibleFile ["vpn_france_paris.ovpn"; "vpn_france_lyon.ovpn"; "vpn_spain.ovpn"]
    ["france"]
  = filteredFiles ["vpn_france_paris.ovpn"; "vpn_france_lyon.ovpn"; "vpn_spain.ovpn"]
      ["france"].
Proof.
  apply (pickMostPossibleFile_all_tokens_match
           ["vpn_france_paris.ovpn"; "vpn_france_lyon.ovpn"; "vpn_spain.ovpn"]
           ["france"]).
  vm_compute. discriminate.
Defined.

(** X2.  The first token at which the phrase stops matching ends the
    narrowing: the result is the list of the candidates that match the
    tokens before it, whatever tokens follow. *)
Theorem pickMostPossibleFile_first_miss (vpnFiles matched rest : list string)
    (token : string) :
  filteredFiles vpnFiles matched <> [] ->
  filteredFiles vpnFiles (matched ++ [token]) = [] ->
  pickMostPossibleFile vpnFiles (matched ++ token :: rest)
  = filteredFiles vpnFiles matched.
Proof.
  intros Hne Hmiss. unfold pickMostPossibleFile.
  destruct (Nat.eqb (List.length vpnFiles) 1) eqn:Hone.
  - symmetry. apply Sublist_same_length; [apply Sublist_filter |].
    apply Nat.eqb_eq in Hone. rewrite Hone.
    destruct (filteredFiles vpnFiles matched); [contradiction | simpl; lia].
  - change (matched ++ token :: rest) with (matched ++ [token] ++ rest).
    rewrite app_assoc, (run_loop_after_miss vpnFiles (matched ++ [token]) rest Hmiss).
    rewrite run_loop_snoc, loop_body_miss.
    + now apply run_loop_matching.
    + now rewrite (run_loop_possibleLocation vpnFiles matched (LoopState [] vpnFiles)).
Qed.

Lemma pickMostPossibleFile_first_miss_witness :
  pickMostPossibleFile ["vpn_france_paris.ovpn"; "vpn_france_lyon.ovpn"; "vpn_spain.ovpn"]
    (["france"] ++ "paris" :: ["now"])
  = filteredFiles ["vpn_france_paris.ovpn"; "vpn_france_lyon.ovpn"; "vpn_spain.ovpn"]
      ["france"].
Proof.
  apply (pickMostPossibleFile_first_miss
           ["vpn_france_paris.ovpn"; "vpn_france_lyon.ovpn"; "vpn_spain.ovpn"]
           ["france"] ["now"] "paris").
  - vm_compute. discriminate.
  - vm_compute. reflexivity.
Defined.

(** X3.  Reading one more token keeps a sublist of the result: files are
    only ever dropped, never brought back or reordered. *)
Theorem pickMostPossibleFile_nested (vpnFiles tokens : list string) (token : string) :
  Sublist (pickMostPossibleFile vpnFiles (tokens ++ [token]))
          (pickMostPossibleFile vpnFiles tokens).
Proof.
  unfold pickMostPossibleFile.
  destruct (Nat.eqb (List.length vpnFiles) 1); [apply Sublist_refl |].
  rewrite run_loop_snoc.
  destruct (loop_body_cases vpnFiles
              (run_loop vpnFiles tokens (LoopState [] vpnFiles)) token)
    as [_ Hcases].
  cbv zeta in Hcases.
  rewrite (run_loop_possibleLocation vpnFiles tokens (LoopState [] vpnFiles)) in Hcases.
  simpl app in Hcases.
  destruct Hcases as [(Hne & _ & Heq) | (_ & Heq)]; rewrite Heq;
    [| apply Sublist_refl].
  assert (filteredFiles vpnFiles tokens <> []) as Hprev.
  { intros Hnil. apply Hne. apply Sublist_of_nil. rewrite <- Hnil.
    apply filteredFiles_longer. }
  rewrite (run_loop_matching vpnFiles tokens Hprev).
  apply filteredFiles_longer.
Qed.

(** X4.  Once a single file is left, no later token changes the result. *)
Theorem pickMostPossibleFile_settled (vpnFiles tokens rest : list string) :
  List.length (pickMostPossibleFile vpnFiles tokens) = 1 ->
  pickMostPossibleFile vpnFiles (tokens ++ rest)
  = pickMostPossibleFile vpnFiles tokens.
Proof.
  unfold pickMostPossibleFile.
  destruct (Nat.eqb (List.length vpnFiles) 1); [reflexivity |].
  intros Hone. induction rest as [| token rest IH] using rev_ind.
  - now rewrite app_nil_r.
  - rewrite app_assoc, run_loop_snoc.
    destruct (loop_body_cases vpnFiles
                (run_loop vpnFiles (tokens ++ rest) (LoopState [] vpnFiles)) token)
      as [_ [(Hne & Hlt & _) | (_ & Heq)]]; [| now rewrite Heq].
    exfalso. rewrite IH, Hone in Hlt.
    destruct (filteredFiles _ _); [now apply Hne | simpl in Hlt; lia].
Qed.

Lemma pickMostPossibleFile_settled_witness :
  pickMostPossibleFile ["vpn_france_paris.ovpn"; "vpn_france_lyon.ovpn"]
    (["paris"] ++ ["lyon"])
  = pickMostPossibleFile ["vpn_france_paris.ovpn"; "vpn_france_lyon.ovpn"] ["paris"].
Proof.
  apply (pickMostPossibleFile_settled
           ["vpn_france_paris.ovpn"; "vpn_france_lyon.ovpn"] ["paris"] ["lyon"]).
  vm_compute. reflexivity.
Defined.

(** ** The VPN handlers and the broker *)

Lemma indexOf_from_absent (xs : list string) (x : string) (i : Z) :
  ~ In x xs -> Js.indexOf_from xs x i = (-1)%Z.
Proof.
  revert i; induction xs as [| y xs IH]; intros i Hnot; simpl; [reflexivity |].
  destruct (String.eqb_spec y x) as [-> | _].
  - exfalso. apply Hnot. now left.
  - apply IH. intros H. apply Hnot. now right.
Qed.

Lemma slice_last {A : Type} (front : list A) (x : A) :
  Js.slice (-1) (front ++ [x]) = [x].
Proof.
  unfold Js.slice. rewrite length_app. simpl List.length.
  change (-1 <? 0)%Z with true. cbv iota.
  rewrite Z.max_l by lia.
  replace (Z.to_nat (Z.of_nat (List.length front + 1) + -1)) with (List.length front + 0)
    by lia.
  rewrite skipn_app, Nat.add_0_r, skipn_all.
  replace (List.length front - List.length front) with 0 by lia.
  reflexivity.
Qed.

(** X5.  When the location is not one of the tokens, [indexOf] answers -1
    and the slice keeps the last token only: that single token is what
    [pickMostPossibleFile] is given, next to the files of the location, and
    the file named in the request is the first one it leaves. *)
Theorem startVpnHandler_location_absent (front : list string)
    (lastToken location : string) :
  ~ In location (front ++ [lastToken]) ->
  Js.slice (Js.indexOf (front ++ [lastToken]) location) (front ++ [lastToken])
  = [lastToken]
  /\ (forall (World : Type) (svc : services World)
             (Ansible : ansible_action_types) (w : World),
        startVpnHandler svc Ansible location (front ++ [lastToken]) w
        = startVpnHandler svc Ansible location [lastToken] w)
  /\ (forall (World : Type) (svc : services World)
             (Ansible : ansible_action_types) (w : World),
        startVpnHandler svc Ansible location (front ++ [lastToken]) w
         = match getLocationVpnFiles svc location w with
           | (Thrown e, w1, calls) => (Thrown e, w1, calls)
           | (Returned vpnFiles, w1, calls) =>
               match pickMostPossibleFile vpnFiles [lastToken] with
               | [] =>
                   (Thrown (TypeError
                              "Cannot read properties of undefined (reading 'split')"),
                    w1, calls)
               | vpnFilePath :: _ =>
                   let queueName :=
                     configService_get svc "Rabbit.AnsibleQueueName" in
                   let payload :=
                     Json.stringify
                       (start_payload Ansible
                          (hd_error (Js.split "." vpnFilePath))) in
                   match (_ <- call CreateConnection
                                    (rabbitService_createConnection svc) ;;
                          call (SendToChannelWithResponse queueName payload)
                               (rabbitService_sendToChannelWithResponse svc
                                  queueName payload)) w1 with
                   | (answer, w2, sent) => (answer, w2, calls ++ sent)
                   end
               end
           end).
Proof.
  intros Hnot.
  assert (Js.slice (Js.indexOf (front ++ [lastToken]) location) (front ++ [lastToken])
          = [lastToken]) as Hslice.
  { unfold Js.indexOf. rewrite (indexOf_from_absent _ _ 0 Hnot). apply slice_last. }
  assert (Js.slice (Js.indexOf [lastToken] location) [lastToken] = [lastToken])
    as Hone.
  { unfold Js.indexOf. rewrite indexOf_from_absent.
    - apply (slice_last []).
    - intros H. apply Hnot. apply in_or_app. now right. }
  split; [exact Hslice |]. split.
  - intros World svc Ansible w.
    now rewrite !startVpnHandler_run, Hslice, Hone.
  - intros World svc Ansible w. now apply startVpnHandler_window.
Qed.

Lemma startVpnHandler_location_absent_witness :
  Js.slice (Js.indexOf (["vpn"; "start"] ++ ["paris"]) "france")
           (["vpn"; "start"] ++ ["paris"])
  = ["paris"]
  /\ (forall (World : Type) (svc : services World)
             (Ansible : ansible_action_types) (w : World),
        startVpnHandler svc Ansible "france" (["vpn"; "start"] ++ ["paris"]) w
        = startVpnHandler svc Ansible "france" ["paris"] w)
  /\ (forall (World : Type) (svc : services World)
             (Ansible : ansible_action_types) (w : World),
        startVpnHandler svc Ansible "france" (["vpn"; "start"] ++ ["paris"]) w
         = match getLocationVpnFiles svc "france" w with
           | (Thrown e, w1, calls) => (Thrown e, w1, calls)
           | (Returned vpnFiles, w1, calls) =>
               match pickMostPossibleFile vpnFiles ["paris"] with
               | [] =>
                   (Thrown (TypeError
                              "Cannot read properties of undefined (reading 'split')"),
                    w1, calls)
               | vpnFilePath :: _ =>
                   let queueName :=
                     configService_get svc "Rabbit.AnsibleQueueName" in
                   let payload :=
                     Json.stringify
                       (start_payload Ansible
                          (hd_error (Js.split "." vpnFilePath))) in
                   match (_ <- call CreateConnection
                                    (rabbitService_createConnection svc) ;;
                          call (SendToChannelWithResponse queueName payload)
                               (rabbitService_sendToChannelWithResponse svc
                                  queueName payload)) w1 with
                   | (answer, w2, sent) => (answer, w2, calls ++ sent)
                   end
               end
           end).
Proof.
  apply (startVpnHandler_location_absent ["vpn"; "start"] "paris" "france").
  simpl. intros [H | [H | [H | []]]]; discriminate.
Defined.

Lemma send_run_shape (World : Type) (svc : services World) (payload : string)
    (w : World) :
  let r := (_ <- call CreateConnection (rabbitService_createConnection svc) ;;
            call (SendToChannelWithResponse
                    (configService_get svc "Rabbit.AnsibleQueueName") payload)
                 (rabbitService_sendToChannelWithResponse svc
                    (configService_get svc "Rabbit.AnsibleQueueName") payload)) w in
  (calls_of r = [CreateConnection]
   /\ exists e, result_of r = Thrown e
                /\ fst (rabbitService_createConnection svc w) = Thrown e)
  \/ (calls_of r
      = [CreateConnection;
         SendToChannelWithResponse
           (configService_get svc "Rabbit.AnsibleQueueName") payload]
      /\ fst (rabbitService_createConnection svc w) = Returned tt).
Proof.
  cbv zeta. rewrite send_run.
  destruct (rabbitService_createConnection svc w) as [[[] | e] w1];
    unfold calls_of, result_of; simpl.
  - right. split; reflexivity.
  - left. split; [reflexivity |]. exists e. split; reflexivity.
Qed.

(** X6.  No handler sends before the connection is open: a message sent by
    a VPN handler is its last call and comes right after a
    [createConnection] that returned; none of the calls before it is a
    send, so a handler sends one message at most. *)
Theorem vpn_handlers_connect_then_send (World : Type) (svc : services World)
    (Ansible : ansible_action_types) (w : World) (queueName payload : string) :
  let sent_last (calls : list vpn_event) :=
    In (SendToChannelWithResponse queueName payload) calls ->
    exists before,
      calls = before ++ [CreateConnection;
                         SendToChannelWithResponse queueName payload]
      /\ forall q p, ~ In (SendToChannelWithResponse q p) before in
  (forall location tokens,
      sent_last (calls_of (startVpnHandler svc Ansible location tokens w)))
  /\ sent_last (calls_of (stopVpnHandler svc Ansible w))
  /\ sent_last (calls_of (vpnStatusHandler svc Ansible w)).
Proof.
  cbv zeta.
  assert (forall p0 w0,
             In (SendToChannelWithResponse queueName payload)
                (calls_of ((_ <- call CreateConnection (rabbitService_createConnection svc) ;;
                            call (SendToChannelWithResponse
                                    (configService_get svc "Rabbit.AnsibleQueueName") p0)
                                 (rabbitService_sendToChannelWithResponse svc
                                    (configService_get svc "Rabbit.AnsibleQueueName") p0))
                             w0)) ->
             calls_of ((_ <- call CreateConnection (rabbitService_createConnection svc) ;;
                        call (SendToChannelWithResponse
                                (configService_get svc "Rabbit.AnsibleQueueName") p0)
                             (rabbitService_sendToChannelWithResponse svc
                                (configService_get svc "Rabbit.AnsibleQueueName") p0))
                         w0)
             = [CreateConnection; SendToChannelWithResponse queueName payload])
    as Hsend.
  { intros p0 w0 Hin.
    destruct (send_run_calls World svc p0 w0 queueName payload Hin) as [-> ->].
    destruct (send_run_shape World svc p0 w0) as [[Hc _] | [Hc _]];
      cbv zeta in Hc; [| exact Hc].
    rewrite Hc in Hin. destruct Hin as [H | []]. discriminate. }
  split; [| split].
  - intros location tokens. rewrite startVpnHandler_run.
    destruct (filesService_getDirFiles svc _ w) as [[dirFiles | e] w1].
    + destruct (pickMostPossibleFile _ _) as [| vpnFilePath others].
      * unfold calls_of; simpl. intros [H | []]; discriminate.
      * cbv zeta.
        match goal with
        | |- context [bind ?m ?k w1] =>
            pose proof (Hsend (Json.stringify
                                 (start_payload Ansible
                                    (Some (before_first "." vpnFilePath)))) w1) as Hs;
            destruct (bind m k w1) as [[o w2] calls]
        end.
        unfold calls_of in *; simpl in *.
        intros [H | H]; [discriminate |].
        rewrite (Hs H).
        exists [GetDirFiles (configService_get svc "VPN.FolderFilesPath")].
        split; [reflexivity |].
        intros q p [Hq | []]. discriminate.
    + unfold calls_of; simpl. intros [H | []]; discriminate.
  - unfold stopVpnHandler. intros H. exists []. rewrite (Hsend _ _ H).
    split; [reflexivity | intros q p []].
  - unfold vpnStatusHandler. intros H. exists []. rewrite (Hsend _ _ H).
    split; [reflexivity | intros q p []].
Qed.

(** X7.  Failures on the way to the broker end [startVpnHandler] at once:
    when the file enumeration throws, the handler throws the same error
    having called nothing else; when opening the connection throws, the
    handler throws that error and nothing is sent. *)
Theorem startVpnHandler_failures (World : Type) (svc : services World)
    (Ansible : ansible_action_types) (location : string) (tokens : list string)
    (w : World) :
  (forall e w1,
      filesService_getDirFiles svc (configService_get svc "VPN.FolderFilesPath") w
      = (Thrown e, w1) ->
      startVpnHandler svc Ansible location tokens w
      = (Thrown e, w1, [GetDirFiles (configService_get svc "VPN.FolderFilesPath")]))
  /\ (forall dirFiles w1 e w2,
        filesService_getDirFiles svc (configService_get svc "VPN.FolderFilesPath") w
        = (Returned dirFiles, w1) ->
        pickMostPossibleFile
          (filter (fun name =>
                     Js.includes (Js.toLowerCase name) (Js.toLowerCase location))
                  dirFiles)
          (Js.slice (Js.indexOf tokens location) tokens) <> [] ->
        rabbitService_createConnection svc w1 = (Thrown e, w2) ->
        startVpnHandler svc Ansible location tokens w
        = (Thrown e, w2,
           [GetDirFiles (configService_get svc "VPN.FolderFilesPath");
            CreateConnection])).
Proof.
  split.
  - intros e w1 Hdir. rewrite startVpnHandler_run, Hdir. reflexivity.
  - intros dirFiles w1 e w2 Hdir Hpick Hconn.
    rewrite startVpnHandler_run, Hdir. unfold matchesLocation.
    destruct (pickMostPossibleFile _ _) as [| vpnFilePath others];
      [contradiction |].
    cbv zeta. rewrite send_run, Hconn. reflexivity.
Qed.

(** ** [handleAction] *)

Section HandleActionFacts.

Variable World : Type.
Variable ActionTypes : spotify_action_types.
Variable spotifyService : spotify_call -> World -> outcome unit * World.

Lemma handleAction_unknown_run (name : string) (device : SpotifyApi.UserDevice)
    (value : option string) (w : World) :
  truthy (SpotifyApi.id device) = true ->
  known_action ActionTypes name = false ->
  handleAction ActionTypes spotifyService name device value w
  = (Thrown (Error ("Unknown action type: " ++ name)), w,
     [LoggerLog ("Executing action: " ++ name)]).
Proof.
  intros Hid Hunknown. unfold handleAction.
  destruct (SpotifyApi.id device) as [deviceId |]; [| discriminate].
  simpl in Hid. apply negb_true_iff in Hid. rewrite Hid.
  unfold known_action in Hunknown. simpl in Hunknown.
  repeat (apply orb_false_iff in Hunknown; destruct Hunknown as [?H Hunknown]).
  unfold bind, perform.
  repeat match goal with H : String.eqb name _ = false |- _ => rewrite H; clear H end.
  reflexivity.
Qed.

(** X8.  A device without an id (absent or empty) makes [handleAction]
    throw at once: nothing is logged and the Spotify service is not
    called. *)
Theorem handleAction_without_device_id (name : string)
    (device : SpotifyApi.UserDevice) (value : option string) (w : World) :
  truthy (SpotifyApi.id device) = false ->
  handleAction ActionTypes spotifyService name device value w
  = (Thrown (Error "No active device found"), w, []).
Proof.
  intros Hid. unfold handleAction.
  destruct (SpotifyApi.id device) as [deviceId |]; [| reflexivity].
  simpl in Hid. apply negb_false_iff in Hid. now rewrite Hid.
Qed.

(** X9.  A name that is none of the nine action types is logged and then
    refused with an error that quotes it; the Spotify service is not
    called and the world is left as it was. *)
Theorem handleAction_unknown (name : string) (device : SpotifyApi.UserDevice)
    (value : option string) (w : World) :
  truthy (SpotifyApi.id device) = true ->
  known_action ActionTypes name = false ->
  handleAction ActionTypes spotifyService name device value w
  = (Thrown (Error ("Unknown action type: " ++ name)), w,
     [LoggerLog ("Executing action: " ++ name)]).
Proof. apply handleAction_unknown_run. Qed.

(** X10.  Whatever the name, [handleAction] calls the Spotify service once
    at most, after the log line, and that call is aimed at the id of the
    device it was given. *)
Theorem handleAction_one_call (name : string) (device : SpotifyApi.UserDevice)
    (value : option string) (w : World) :
  calls_of (handleAction ActionTypes spotifyService name device value w) = []
  \/ calls_of (handleAction ActionTypes spotifyService name device value w)
     = [LoggerLog ("Executing action: " ++ name)]
  \/ exists c,
       calls_of (handleAction ActionTypes spotifyService name device value w)
       = [LoggerLog ("Executing action: " ++ name); c]
       /\ call_device c = SpotifyApi.id device
       /\ c <> LoggerLog ("Executing action: " ++ name).
Proof.
  unfold handleAction.
  destruct (SpotifyApi.id device) as [deviceId |]; [| now left].
  destruct (String.eqb deviceId EmptyString); [now left |].
  right. unfold bind, perform, call, calls_of.
  repeat match goal with
         | |- context [if String.eqb name ?t then _ else _] =>
             destruct (String.eqb name t);
             [ right;
               match goal with
               | |- context [spotifyService ?c w] =>
                   exists c; destruct (spotifyService c w) as [[[] | e] w1];
                   simpl; repeat split; discriminate
               end
             | ]
         end.
  left. reflexivity.
Qed.

End HandleActionFacts.

Lemma handleAction_without_device_id_witness :
  handleAction sample_spotify_types (fun _ (w : unit) => (Returned tt, w))
    "Resume" (sample_device None "TV" true) None tt
  = (Thrown (Error "No active device found"), tt, []).
Proof.
  apply (handleAction_without_device_id unit sample_spotify_types
           (fun _ w => (Returned tt, w)) "Resume" (sample_device None "TV" true) None tt).
  reflexivity.
Defined.

Lemma handleAction_unknown_witness :
  handleAction sample_spotify_types (fun _ (w : unit) => (Returned tt, w))
    "Rewind" (sample_device (Some "tv-1") "TV" true) None tt
  = (Thrown (Error ("Unknown action type: " ++ "Rewind")), tt,
     [LoggerLog ("Executing action: " ++ "Rewind")]).
Proof.
  apply (handleAction_unknown unit sample_spotify_types
           (fun _ w => (Returned tt, w)) "Rewind"
           (sample_device (Some "tv-1") "TV" true) None tt);
    reflexivity.
Defined.

(** ** Choosing the device and answering the request *)

Section ControllerFacts.

Variable World : Type.
Variable getDevices : World -> outcome (list SpotifyApi.UserDevice) * World.
Variable handleAction :
  string -> SpotifyApi.UserDevice -> option string -> World -> outcome unit * World.
Variable refreshAccess : World -> World.

Lemma getTargetDevice_run (deviceType : option string) (w : World) :
  getTargetDevice getDevices deviceType w
  = match getDevices w with
    | (Returned devices, w1) =>
        (Returned
           (if truthy deviceType then
              find (fun d => match deviceType with
                             | Some t => String.eqb (SpotifyApi.type d) t
                             | None => false
                             end) devices
            else
              match find SpotifyApi.is_active devices with
              | Some activeDevice => Some activeDevice
              | None =>
                  find (fun d => String.eqb (SpotifyApi.type d) DefaultDeviceType)
                       devices
              end),
         w1, [GetDevices])
    | (Thrown e, w1) => (Thrown e, w1, [GetDevices])
    end.
Proof.
  unfold getTargetDevice, bind, call, ret.
  destruct (getDevices w) as [[devices | e] w1]; [| reflexivity].
  destruct (truthy deviceType); [reflexivity |].
  destruct (find SpotifyApi.is_active devices); reflexivity.
Qed.

Lemma find_first {A : Type} (p : A -> bool) (l : list A) (x : A) :
  find p l = Some x ->
  exists before after,
    l = before ++ x :: after
    /\ p x = true
    /\ forall other, In other before -> p other = false.
Proof.
  induction l as [| y l IH]; simpl; [discriminate |].
  destruct (p y) eqn:Hy.
  - intros [= ->]. exists [], l. repeat split; [exact Hy | intros other []].
  - intros Hfind. destruct (IH Hfind) as (before & after & -> & Hx & Hbefore).
    exists (y :: before), after. repeat split; [exact Hx |].
    intros other [<- | Hin]; [exact Hy | now apply Hbefore].
Qed.

(** X11.  The device [getTargetDevice] answers is one of the listed
    devices.  With a device type asked for, it is the first device of that
    type in the list and there is no falling back: no device of the type,
    no device.  Without one (absent or empty), it is the first active
    device of the list, and the first device of the default type [TV] only
    when none is active. *)
Theorem getTargetDevice_choice (deviceType : option string) (w : World) :
  match getDevices w with
  | (Thrown e, w1) =>
      getTargetDevice getDevices deviceType w = (Thrown e, w1, [GetDevices])
  | (Returned devices, w1) =>
      exists chosen,
        getTargetDevice getDevices deviceType w = (Returned chosen, w1, [GetDevices])
        /\ match chosen with
           | Some d =>
               In d devices
               /\ exists before after,
                    devices = before ++ d :: after
                    /\ if truthy deviceType then
                         Some (SpotifyApi.type d) = deviceType
                         /\ forall other, In other before ->
                                          Some (SpotifyApi.type other) <> deviceType
                       else
                         (SpotifyApi.is_active d = true
                          /\ forall other, In other before ->
                                           SpotifyApi.is_active other = false)
                         \/ ((forall other, In other devices ->
                                            SpotifyApi.is_active other = false)
                             /\ SpotifyApi.type d = DefaultDeviceType
                             /\ forall other, In other before ->
                                              SpotifyApi.type other
                                              <> DefaultDeviceType)
           | None =>
               if truthy deviceType then
                 forall other, In other devices ->
                               Some (SpotifyApi.type other) <> deviceType
               else
                 forall other, In other devices ->
                               SpotifyApi.is_active other = false
                               /\ SpotifyApi.type other <> DefaultDeviceType
           end
  end.
Proof.
  rewrite getTargetDevice_run.
  destruct (getDevices w) as [[devices | e] w1]; [| reflexivity].
  eexists. split; [reflexivity |].
  destruct (truthy deviceType) eqn:Htruthy.
  - destruct deviceType as [t |]; [| discriminate].
    destruct (find _ devices) as [d |] eqn:Hfind.
    + pose proof (find_some _ _ Hfind) as [Hin _].
      apply find_first in Hfind.
      destruct Hfind as (before & after & Hsplit & Heq & Hbefore).
      split; [exact Hin |]. exists before, after. split; [exact Hsplit |].
      apply String.eqb_eq in Heq. split; [now rewrite Heq |].
      intros other Hother [= Hsame]. specialize (Hbefore other Hother).
      simpl in Hbefore. rewrite Hsame, String.eqb_refl in Hbefore. discriminate.
    + intros other Hin Heq.
      pose proof (find_none _ _ Hfind other Hin) as Hno. simpl in Hno.
      injection Heq as Heq. rewrite Heq, String.eqb_refl in Hno. discriminate.
  - destruct (find SpotifyApi.is_active devices) as [a |] eqn:Hactive.
    + pose proof (find_some _ _ Hactive) as [Hin _].
      apply find_first in Hactive.
      destruct Hactive as (before & after & Hsplit & Ha & Hbefore).
      split; [exact Hin |]. exists before, after. split; [exact Hsplit |].
      left. split; assumption.
    + destruct (find (fun d => String.eqb (SpotifyApi.type d) DefaultDeviceType)
                     devices) as [d |] eqn:Hfind.
      * pose proof (find_some _ _ Hfind) as [Hin _].
        apply find_first in Hfind.
        destruct Hfind as (before & after & Hsplit & Heq & Hbefore).
        split; [exact Hin |]. exists before, after. split; [exact Hsplit |].
        right. apply String.eqb_eq in Heq.
        split; [| split; [exact Heq |]].
        -- intros other Hother. exact (find_none _ _ Hactive other Hother).
        -- intros other Hother. apply String.eqb_neq.
           exact (Hbefore other Hother).
      * intros other Hother. split.
        -- exact (find_none _ _ Hactive other Hother).
        -- pose proof (find_none _ _ Hfind other Hother) as Hno. simpl in Hno.
           now apply String.eqb_neq.
Qed.

(** X12.  Without a target device, or with one that has no id, [execute]
    answers 500 "No active device found" and goes no further: the action is
    not attempted and access is not refreshed. *)
Theorem execute_without_device (name : string) (value deviceType : option string)
    (w w0 : World) (device : option SpotifyApi.UserDevice)
    (calls0 : list spotify_event) :
  getTargetDevice getDevices deviceType w = (Returned device, w0, calls0) ->
  match device with
  | Some d => truthy (SpotifyApi.id d) = false
  | None => True
  end ->
  execute getDevices handleAction refreshAccess name value deviceType w
  = (Returned (Response 500 (json_message "No active device found")), w0, calls0).
Proof.
  intros Hdev Hid. unfold execute. unfold bind at 1. rewrite Hdev.
  destruct device as [d |].
  - rewrite Hid. unfold ret. simpl. now rewrite app_nil_r.
  - unfold ret. simpl. now rewrite app_nil_r.
Qed.

End ControllerFacts.

Lemma execute_without_device_witness :
  execute (fun w : unit => (Returned [sample_device None "TV" true], w))
          (fun _ _ _ w => (Returned tt, w)) (fun w => w)
          "Resume" None None tt
  = (Returned (Response 500 (json_message "No active device found")), tt,
     [GetDevices]).
Proof.
  apply (execute_without_device unit
           (fun w => (Returned [sample_device None "TV" true], w))
           (fun _ _ _ w => (Returned tt, w)) (fun w => w)
           "Resume" None None tt tt (Some (sample_device None "TV" true)) [GetDevices]);
    reflexivity.
Defined.

(** A run in which access is stale at first: the world is the flag that
    access is fresh. *)
Lemma execute_retries_once_witness :
  execute (fun fresh : bool =>
             (Returned [sample_device (Some "tv-1") "TV" true], fresh))
          (fun _ _ _ fresh =>
             if fresh then (Returned tt, fresh)
             else (Thrown (Error "The access token expired"), fresh))
          (fun _ => true)
          "Resume" None None false
  = (Returned (Response 200 (json_message "OK")), true,
     [GetDevices] ++
     [HandleAction "Resume" (sample_device (Some "tv-1") "TV" true) None;
      RefreshAccess;
      HandleAction "Resume" (sample_device (Some "tv-1") "TV" true) None]).
Proof.
  exact (execute_retries_once bool
           (fun fresh => (Returned [sample_device (Some "tv-1") "TV" true], fresh))
           (fun _ _ _ fresh =>
              if fresh then (Returned tt, fresh)
              else (Thrown (Error "The access token expired"), fresh))
           (fun _ => true)
           "Resume" None None false false
           (sample_device (Some "tv-1") "TV" true) [GetDevices]
           eq_refl eq_refl).
Defined.

(** ** The streams service *)

Section StreamsFacts.

Variable World : Type.
Variable configService_get : string -> string.
Variable invokeAction : string -> string -> World -> outcome string * World.
Variable httpClientService_get : string -> World -> outcome unit * World.
Variable parseURL : string -> option Streams.URL.

Local Abbreviation power_state :=
  (Streams.InvokeAction Streams.AppleTvExecuteType Streams.AppleTvCommands.PowerState).
Local Abbreviation turn_on :=
  (Streams.InvokeAction Streams.AppleTvExecuteType Streams.AppleTvCommands.TurnOn).
Local Abbreviation ask_power :=
  (invokeAction Streams.AppleTvExecuteType Streams.AppleTvCommands.PowerState).
Local Abbreviation ask_turn_on :=
  (invokeAction Streams.AppleTvExecuteType Streams.AppleTvCommands.TurnOn).

Lemma turnOnAppleTv_run (w : World) :
  Streams.turnOnAppleTv invokeAction w
  = match ask_power w with
    | (Thrown e, w1) => (Thrown e, w1, [power_state])
    | (Returned first, w1) =>
        if String.eqb first Streams.AppleTvPowerState.On then
          (Returned tt, w1, [power_state; Streams.LogInfo "Apple TV is already on"])
        else
          match ask_turn_on w1 with
          | (Thrown e, w2) =>
              (Thrown e, w2,
               [power_state; Streams.LogInfo "Turning on Apple TV"; turn_on])
          | (Returned _, w2) =>
              match ask_power w2 with
              | (Thrown e, w3) =>
                  (Thrown e, w3,
                   [power_state; Streams.LogInfo "Turning on Apple TV"; turn_on;
                    Streams.Wait 5000; power_state])
              | (Returned second, w3) =>
                  (if String.eqb second Streams.AppleTvPowerState.On
                   then Returned tt
                   else Thrown (Error "Failed to turn on Apple TV"),
                   w3,
                   [power_state; Streams.LogInfo "Turning on Apple TV"; turn_on;
                    Streams.Wait 5000; power_state])
              end
          end
    end.
Proof.
  unfold Streams.turnOnAppleTv, Streams.checkPowerStatus, Streams.info,
    Streams.wait, bind, call, perform, ret, throw.
  destruct (ask_power w) as [[first | e] w1]; [| reflexivity].
  simpl. destruct (String.eqb first Streams.AppleTvPowerState.On); [reflexivity |].
  destruct (ask_turn_on w1) as [[r | e] w2]; [| reflexivity].
  destruct (ask_power w2) as [[second | e] w3]; [| reflexivity].
  simpl. destruct (String.eqb second Streams.AppleTvPowerState.On); reflexivity.
Qed.

(** X16.  When [turnOnAppleTv] returns, the last power query answered
    [PowerState.On] and left the world the function ends in.  The command
    [turn_on] is sent once at most, and not at all when the first query
    answers [PowerState.On]. *)
Theorem turnOnAppleTv_effect (w : World) :
  (forall u,
      result_of (Streams.turnOnAppleTv invokeAction w) = Returned u ->
      exists asked,
        ask_power asked
        = (Returned Streams.AppleTvPowerState.On,
           world_of (Streams.turnOnAppleTv invokeAction w)))
  /\ count_occ streams_event_eq_dec
       (calls_of (Streams.turnOnAppleTv invokeAction w)) turn_on <= 1
  /\ (fst (ask_power w) = Returned Streams.AppleTvPowerState.On ->
      calls_of (Streams.turnOnAppleTv invokeAction w)
      = [power_state; Streams.LogInfo "Apple TV is already on"]).
Proof.
  rewrite turnOnAppleTv_run.
  destruct (ask_power w) as [[first | e] w1] eqn:Hfirst.
  - destruct (String.eqb_spec first Streams.AppleTvPowerState.On) as [-> | Hoff].
    + unfold result_of, world_of, calls_of; simpl.
      repeat split; [intros u _; now exists w | lia].
    + destruct (ask_turn_on w1) as [[r | e] w2].
      * destruct (ask_power w2) as [[second | e] w3] eqn:Hsecond.
        -- destruct (String.eqb_spec second Streams.AppleTvPowerState.On)
             as [-> | Hstill];
             unfold result_of, world_of, calls_of; simpl; repeat split;
             try lia; try discriminate; try congruence.
           intros u _. now exists w2.
        -- unfold result_of, world_of, calls_of; simpl; repeat split;
             try lia; try discriminate; congruence.
      * unfold result_of, world_of, calls_of; simpl; repeat split;
          try lia; try discriminate; congruence.
  - unfold result_of, world_of, calls_of; simpl; repeat split;
      try lia; discriminate.
Qed.

Lemma openUrl_run (url : string) (w : World) :
  Streams.openUrl configService_get invokeAction httpClientService_get parseURL url w
  = match Streams.turnOnAppleTv invokeAction w with
    | (Thrown e, w1, calls) =>
        (Thrown e, w1, Streams.LogInfo ("Opening url: " ++ url) :: calls)
    | (Returned _, w1, calls) =>
        match Streams.getDeeplinkByURL configService_get parseURL url with
        | Thrown e =>
            (Thrown e, w1, Streams.LogInfo ("Opening url: " ++ url) :: calls)
        | Returned (deeplink, provider) =>
            match Streams.openDeeplink invokeAction httpClientService_get
                    deeplink provider w1 with
            | (Thrown e, w2, opened) =>
                (Thrown e, w2,
                 Streams.LogInfo ("Opening url: " ++ url) :: calls
                 ++ Streams.LogInfo ("Opening deeplink: " ++ deeplink) :: opened)
            | (Returned _, w2, opened) =>
                (Returned tt, w2,
                 Streams.LogInfo ("Opening url: " ++ url) :: calls
                 ++ Streams.LogInfo ("Opening deeplink: " ++ deeplink) :: opened
                 ++ [Streams.LogInfo "Url opened successfully"])
            end
        end
    end.
Proof.
  unfold Streams.openUrl, Streams.info, bind, perform, throw.
  destruct (Streams.turnOnAppleTv invokeAction w) as [[[[] | e] w1] calls];
    [| reflexivity].
  destruct (Streams.getDeeplinkByURL configService_get parseURL url)
    as [[deeplink provider] | e].
  - destruct (Streams.openDeeplink invokeAction httpClientService_get
                deeplink provider w1) as [[[[] | e] w2] opened]; simpl.
    + reflexivity.
    + reflexivity.
  - simpl. now rewrite app_nil_r.
Qed.

(** X17.  The Apple TV comes first: when [turnOnAppleTv] throws, [openUrl]
    throws the same error, and apart from its first log line it has made
    only the calls of [turnOnAppleTv]; the link is not even parsed. *)
Theorem openUrl_tv_failure (url : string) (w : World) (e : error) :
  result_of (Streams.turnOnAppleTv invokeAction w) = Thrown e ->
  Streams.openUrl configService_get invokeAction httpClientService_get parseURL url w
  = (Thrown e, world_of (Streams.turnOnAppleTv invokeAction w),
     Streams.LogInfo ("Opening url: " ++ url)
     :: calls_of (Streams.turnOnAppleTv invokeAction w)).
Proof.
  rewrite openUrl_run.
  destruct (Streams.turnOnAppleTv invokeAction w) as [[[[] | e1] w1] calls];
    unfold result_of, world_of, calls_of; simpl; [discriminate |].
  now intros [= ->].
Qed.

(** X18.  A link that does not parse is found out only after the Apple TV
    has been turned on: [openUrl] then throws a type error, and nothing is
    launched. *)
Theorem openUrl_invalid_link (url : string) (w : World) :
  result_of (Streams.turnOnAppleTv invokeAction w) = Returned tt ->
  parseURL url = None ->
  exists text,
    Streams.openUrl configService_get invokeAction httpClientService_get
      parseURL url w
    = (Thrown (TypeError text), world_of (Streams.turnOnAppleTv invokeAction w),
       Streams.LogInfo ("Opening url: " ++ url)
       :: calls_of (Streams.turnOnAppleTv invokeAction w)).
Proof.
  intros Hon Hparse. rewrite openUrl_run.
  destruct (Streams.turnOnAppleTv invokeAction w) as [[[[] | e1] w1] calls];
    unfold result_of, world_of, calls_of in *; simpl in *; [| discriminate].
  unfold Streams.getDeeplinkByURL. rewrite Hparse. eexists. reflexivity.
Qed.

(** X19.  A link to a host that is none of the three known ones is logged
    as an error and nothing is launched or fetched, yet [openUrl] returns
    and logs that the url was opened. *)
Theorem openUrl_unrecognized (url : string) (w : World) (parsed : Streams.URL) :
  result_of (Streams.turnOnAppleTv invokeAction w) = Returned tt ->
  parseURL url = Some parsed ->
  existsb (String.eqb (Streams.hostname parsed))
          ["www.youtube.com"; "youtu.be"; "www.twitch.tv"] = false ->
  Streams.openUrl configService_get invokeAction httpClientService_get parseURL url w
  = (Returned tt, world_of (Streams.turnOnAppleTv invokeAction w),
     Streams.LogInfo ("Opening url: " ++ url)
     :: calls_of (Streams.turnOnAppleTv invokeAction w)
     ++ [Streams.LogInfo ("Opening deeplink: " ++ url);
         Streams.LogError ("Unrecognized provider for deeplink: " ++ url);
         Streams.LogInfo "Url opened successfully"]).
Proof.
  intros Hon Hparse Hhost. rewrite openUrl_run.
  destruct (Streams.turnOnAppleTv invokeAction w) as [[[[] | e1] w1] calls];
    unfold result_of, world_of, calls_of in *; simpl in *; [| discriminate].
  unfold Streams.getDeeplinkByURL. rewrite Hparse.
  repeat (apply orb_false_iff in Hhost; destruct Hhost as [?H Hhost]).
  repeat match goal with
         | H : String.eqb (Streams.hostname parsed) _ = false |- _ =>
             rewrite H; clear H
         end.
  reflexivity.
Qed.

End StreamsFacts.

Lemma openUrl_tv_failure_witness :
  Streams.openUrl (fun key => key) sample_invokeAction_off
    (fun _ w => (Returned tt, w)) (fun _ => None) "https://youtu.be/abc" tt
  = (Thrown (Error "Failed to turn on Apple TV"),
     world_of (Streams.turnOnAppleTv sample_invokeAction_off tt),
     Streams.LogInfo ("Opening url: " ++ "https://youtu.be/abc")
     :: calls_of (Streams.turnOnAppleTv sample_invokeAction_off tt)).
Proof.
  apply (openUrl_tv_failure unit (fun key => key) sample_invokeAction_off
           (fun _ w => (Returned tt, w)) (fun _ => None) "https://youtu.be/abc" tt
           (Error "Failed to turn on Apple TV")).
  reflexivity.
Defined.

Lemma openUrl_invalid_link_witness :
  exists text,
    Streams.openUrl (fun key => key) sample_invokeAction
      (fun _ w => (Returned tt, w)) (fun _ => None) "not a link" tt
    = (Thrown (TypeError text),
       world_of (Streams.turnOnAppleTv sample_invokeAction tt),
       Streams.LogInfo ("Opening url: " ++ "not a link")
       :: calls_of (Streams.turnOnAppleTv sample_invokeAction tt)).
Proof.
  apply (openUrl_invalid_link unit (fun key => key) sample_invokeAction
           (fun _ w => (Returned tt, w)) (fun _ => None) "not a link" tt);
    reflexivity.
Defined.

Lemma openUrl_unrecognized_witness :
  Streams.openUrl (fun key => key) sample_invokeAction
    (fun _ w => (Returned tt, w))
    (fun _ => Some (Streams.Build_URL "youtube.com" "/watch" (fun _ => Some "abc")))
    "https://youtube.com/watch?v=abc" tt
  = (Returned tt, world_of (Streams.turnOnAppleTv sample_invokeAction tt),
     Streams.LogInfo ("Opening url: " ++ "https://youtube.com/watch?v=abc")
     :: calls_of (Streams.turnOnAppleTv sample_invokeAction tt)
     ++ [Streams.LogInfo ("Opening deeplink: " ++ "https://youtube.com/watch?v=abc");
         Streams.LogError
           ("Unrecognized provider for deeplink: " ++ "https://youtube.com/watch?v=abc");
         Streams.LogInfo "Url opened successfully"]).
Proof.
  apply (openUrl_unrecognized unit (fun key => key) sample_invokeAction
           (fun _ w => (Returned tt, w))
           (fun _ => Some (Streams.Build_URL "youtube.com" "/watch"
                             (fun _ => Some "abc")))
           "https://youtube.com/watch?v=abc" tt
           (Streams.Build_URL "youtube.com" "/watch" (fun _ => Some "abc")));
    reflexivity.
Defined.

Lemma all_chars_append (p : ascii -> bool) (a b : string) :
  all_chars p (a ++ b) = (all_chars p a && all_chars p b)%bool.
Proof.
  induction a as [| c a IH]; simpl; [reflexivity |].
  now rewrite IH, andb_assoc.
Qed.

Lemma encode_unit_safe (c : ascii) :
  all_chars uri_safe (Streams.encode_unit c) = true.
Proof. destruct c as [[] [] [] [] [] [] [] []]; vm_compute; reflexivity. Qed.

Lemma encodeURIComponent_safe (s : string) :
  all_chars uri_safe (Streams.encodeURIComponent s) = true.
Proof.
  induction s as [| c s IH]; simpl; [reflexivity |].
  now rewrite all_chars_append, encode_unit_safe, IH.
Qed.

(** X20.  The Twitch deep link is the configured Apple TV address, the
    fixed player prefix and the escaped stream address: whatever the
    channel in the path, what follows [url=] holds unreserved characters
    and percent escapes only, so the channel cannot add a parameter or a
    fragment to the deep link. *)
Theorem getDeeplinkByURL_twitch_escaped (configService_get : string -> string)
    (parseURL : string -> option Streams.URL) (link : string)
    (parsed : Streams.URL) :
  parseURL link = Some parsed ->
  Streams.hostname parsed = "www.twitch.tv" ->
  exists escaped,
    Streams.getDeeplinkByURL configService_get parseURL link
    = Returned ((configService_get "liveStreamForwarder.atvUrl"
                   ++ "/open?target=vlc-x-callback://x-callback-url/stream?url="
                   ++ escaped)%string,
                Streams.Twitch)
    /\ all_chars uri_safe escaped = true.
Proof.
  intros Hparse Hhost. unfold Streams.getDeeplinkByURL.
  rewrite Hparse, Hhost. cbn [String.eqb]. simpl.
  eexists. split; [reflexivity | apply encodeURIComponent_safe].
Qed.

Lemma getDeeplinkByURL_twitch_escaped_witness :
  exists escaped,
    Streams.getDeeplinkByURL (fun key => key)
      (fun _ => Some (Streams.Build_URL "www.twitch.tv" "/some&one?x#y"
                        (fun _ => None)))
      "https://www.twitch.tv/some&one?x#y"
    = Returned (("liveStreamForwarder.atvUrl"
                   ++ "/open?target=vlc-x-callback://x-callback-url/stream?url="
                   ++ escaped)%string,
                Streams.Twitch)
    /\ all_chars uri_safe escaped = true.
Proof.
  apply (getDeeplinkByURL_twitch_escaped (fun key => key)
           (fun _ => Some (Streams.Build_URL "www.twitch.tv" "/some&one?x#y"
                             (fun _ => None)))
           "https://www.twitch.tv/some&one?x#y"
           (Streams.Build_URL "www.twitch.tv" "/some&one?x#y" (fun _ => None)));
    reflexivity.
Defined.

(** X21.  An HTTP request is made for a Twitch link only, to the deep
    link itself, and it comes last: after the launch of the deep-link
    application has returned and five seconds have been waited. *)
Theorem openDeeplink_http_last (World : Type)
    (invokeAction : string -> string -> World -> outcome string * World)
    (httpClientService_get : string -> World -> outcome unit * World)
    (deeplink : string) (provider : Streams.Providers) (w : World)
    (url : string) :
  In (Streams.HttpGet url)
     (calls_of (Streams.openDeeplink invokeAction httpClientService_get
                  deeplink provider w)) ->
  provider = Streams.Twitch
  /\ url = deeplink
  /\ calls_of (Streams.openDeeplink invokeAction httpClientService_get
                 deeplink provider w)
     = [Streams.LogInfo "Launching app: com.celerity.DeepLink";
        Streams.InvokeAction Streams.AppleTvExecuteType
          "launch_app=com.celerity.DeepLink";
        Streams.Wait 5000;
        Streams.HttpGet deeplink]
  /\ exists answer w1,
       invokeAction Streams.AppleTvExecuteType "launch_app=com.celerity.DeepLink" w
       = (Returned answer, w1).
Proof.
  destruct provider; unfold Streams.openDeeplink, Streams.launchApp,
    Streams.info, Streams.wait, bind, call, perform, ret, calls_of.
  - change (Streams.AppleTvCommands.LaunchApp ++ "=" ++ "com.celerity.DeepLink")%string
      with "launch_app=com.celerity.DeepLink".
    destruct (invokeAction Streams.AppleTvExecuteType
                "launch_app=com.celerity.DeepLink" w) as [[answer | e] w1]; simpl.
    + destruct (httpClientService_get deeplink w1) as [o w2]. simpl.
      intros [H | [H | [H | [H | []]]]]; try discriminate.
      injection H as <-. repeat split. now exists answer, w1.
    + intros [H | [H | []]]; discriminate.
  - destruct (invokeAction _ _ w) as [[answer | e] w1]; simpl;
      intros [H | [H | []]]; discriminate.
  - simpl. intros [H | []]; discriminate.
Qed.

Lemma openDeeplink_http_last_witness :
  Streams.Twitch = Streams.Twitch
  /\ "http://atv/open" = "http://atv/open"
  /\ calls_of (Streams.openDeeplink sample_invokeAction
                 (fun _ w => (Returned tt, w)) "http://atv/open" Streams.Twitch tt)
     = [Streams.LogInfo "Launching app: com.celerity.DeepLink";
        Streams.InvokeAction Streams.AppleTvExecuteType
          "launch_app=com.celerity.DeepLink";
        Streams.Wait 5000;
        Streams.HttpGet "http://atv/open"]
  /\ exists answer w1,
       sample_invokeAction Streams.AppleTvExecuteType
         "launch_app=com.celerity.DeepLink" tt
       = (Returned answer, w1).
Proof.
  apply (openDeeplink_http_last unit sample_invokeAction
           (fun _ w => (Returned tt, w)) "http://atv/open" Streams.Twitch tt
           "http://atv/open").
  vm_compute. right. right. right. left. reflexivity.
Defined.

(** ** The queue handler of the smart devices service *)

Section SmartDevicesFacts.

Variable Number : Type.
Variable hundred : Number.
Variable show_number : Number -> string.
Variable World : Type.
Variable SmartDevicesTypes : SmartDevices.action_types.
Variable JSON_parse : string -> outcome (SmartDevices.value Number).
Variable yeelightService :
  SmartDevices.yeelight_call Number -> World -> outcome unit * World.
Variable channel_sendToQueue :
  string -> string -> string -> World -> outcome unit * World.

Local Abbreviation handle :=
  (SmartDevices.handleQueueMessage hundred show_number SmartDevicesTypes
     JSON_parse yeelightService channel_sendToQueue).
Local Abbreviation dispatch :=
  (SmartDevices.dispatch show_number SmartDevicesTypes yeelightService).

(** The switch makes one call at most, a method of the Yeelight service
    or the warning, and none when it throws on the text of the name. *)
Lemma dispatch_one_call (name zones brightness : option (SmartDevices.value Number))
    (w : World) :
  (calls_of (dispatch name zones brightness w) = []
   /\ exists e, result_of (dispatch name zones brightness w) = Thrown e)
  \/ exists ev,
       calls_of (dispatch name zones brightness w) = [ev]
       /\ forall q b c, ev <> SmartDevices.SendToQueue q b c.
Proof.
  unfold SmartDevices.dispatch, call, perform, throw, calls_of, result_of.
  repeat match goal with
         | |- context [if SmartDevices.is_action name ?c then _ else _] =>
             destruct (SmartDevices.is_action name c);
             [ match goal with
               | |- context [yeelightService ?y w] =>
                   destruct (yeelightService y w) as [o w1]; simpl;
                   right; eexists; split; [reflexivity | discriminate]
               end
             | ]
         end.
  destruct (SmartDevices.show show_number name) as [text |]; simpl.
  - right. eexists. split; [reflexivity | discriminate].
  - left. split; [reflexivity | eexists; reflexivity].
Qed.

Lemma then_reply_run (name zones brightness : option (SmartDevices.value Number))
    (msg : SmartDevices.ConsumeMessage) (w : World) :
  (_ <- dispatch name zones brightness ;;
   SmartDevices.reply channel_sendToQueue msg) w
  = match dispatch name zones brightness w with
    | (Returned _, w1, calls) =>
        (fst (channel_sendToQueue (SmartDevices.replyTo msg) "{}"
                (SmartDevices.correlationId msg) w1),
         snd (channel_sendToQueue (SmartDevices.replyTo msg) "{}"
                (SmartDevices.correlationId msg) w1),
         calls ++ [SmartDevices.SendToQueue (SmartDevices.replyTo msg) "{}"
                     (SmartDevices.correlationId msg)])
    | (Thrown e, w1, calls) => (Thrown e, w1, calls)
    end.
Proof.
  unfold bind, SmartDevices.reply, call.
  destruct (dispatch name zones brightness w) as [[[[] | e] w1] calls];
    [| reflexivity].
  change (Json.stringify (JObject [])) with "{}".
  destruct (channel_sendToQueue _ _ _ w1) as [o w2]. reflexivity.
Qed.

(** What a message that parses to something with usable [args] leads to. *)
Lemma handle_cases (msg : SmartDevices.ConsumeMessage) (w : World) :
  (calls_of (handle msg w) = [] /\ exists e, handle msg w = (Thrown e, w, []))
  \/ exists name zones brightness,
       handle msg w
       = (_ <- dispatch name zones brightness ;;
          SmartDevices.reply channel_sendToQueue msg) w.
Proof.
  unfold SmartDevices.handleQueueMessage.
  destruct (JSON_parse (SmartDevices.content msg)) as [parsed | e].
  - destruct parsed as [| b | n | s | elements | members];
      try (destruct (SmartDevices.member "args" _) as [[| ? | ? | ? | ? | ?] |];
           first [ left; split; [reflexivity | eexists; reflexivity]
                 | right; eexists; eexists; eexists; reflexivity ]).
    left. split; [reflexivity | eexists; reflexivity].
  - left. split; [reflexivity | eexists; reflexivity].
Qed.

(** X22.  A handler that returns has replied exactly once, as its last
    call; and any reply it sends, whatever the action, known or not, goes
    to the [replyTo] queue of the message with its correlation id and the
    empty object as body. *)
Theorem handleQueueMessage_reply (msg : SmartDevices.ConsumeMessage) (w : World) :
  (forall u,
      result_of (handle msg w) = Returned u ->
      exists before,
        calls_of (handle msg w)
        = before ++ [SmartDevices.SendToQueue (SmartDevices.replyTo msg) "{}"
                       (SmartDevices.correlationId msg)]
        /\ forall q b c, ~ In (SmartDevices.SendToQueue q b c) before)
  /\ (forall q b c,
        In (SmartDevices.SendToQueue q b c) (calls_of (handle msg w)) ->
        q = SmartDevices.replyTo msg /\ b = "{}"
        /\ c = SmartDevices.correlationId msg).
Proof.
  destruct (handle_cases msg w) as [[Hnone [e He]] | (name & zones & brightness & Hrun)].
  - rewrite He. unfold result_of, calls_of. simpl.
    split; [intros u H; discriminate | intros q b c []].
  - rewrite Hrun, then_reply_run.
    destruct (dispatch_one_call name zones brightness w)
      as [[Hnone [e He]] | (ev & Hev & Hnot)].
    + destruct (dispatch name zones brightness w) as [[[[] | e0] w1] calls];
        unfold calls_of, result_of in *; simpl in *; [discriminate |].
      subst calls. split; [intros u H; discriminate | intros q b c []].
    + destruct (dispatch name zones brightness w) as [[[[] | e] w1] calls];
        unfold calls_of in Hev; simpl in Hev; subst calls;
        unfold result_of, calls_of; simpl.
      * split.
        -- intros u _. exists [ev]. split; [reflexivity |].
           intros q b c [H | []]. exact (Hnot q b c H).
        -- intros q b c [H | [H | []]]; [exfalso; exact (Hnot q b c H) |].
           injection H as <- <- <-. repeat split.
      * split; [intros u H; discriminate |].
        intros q b c [H | []]. exfalso. exact (Hnot q b c H).
Qed.

(** X23.  A message that does not parse, that is [null], or whose [args]
    is [null] is dropped: the handler throws having called nothing, so no
    device is touched and no reply is sent. *)
Theorem handleQueueMessage_malformed (msg : SmartDevices.ConsumeMessage) (w : World) :
  match JSON_parse (SmartDevices.content msg) with
  | Thrown _ => True
  | Returned SmartDevices.Null => True
  | Returned parsed =>
      SmartDevices.member "args" parsed = Some SmartDevices.Null
  end ->
  exists e, handle msg w = (Thrown e, w, []).
Proof.
  unfold SmartDevices.handleQueueMessage.
  destruct (JSON_parse (SmartDevices.content msg)) as [parsed | e];
    [| intros _; eexists; reflexivity].
  destruct parsed; intros H; try rewrite H; eexists; reflexivity.
Qed.

(** X24.  An action that is none of the four (or a name that is no string)
    is only warned about, with the text of the name, and the message is
    then answered like any other.  When the name has no text, an object
    with a key [toString], or an array holding one, the handler throws a
    type error instead: nothing is logged and no reply is sent. *)
Theorem handleQueueMessage_unknown_action (msg : SmartDevices.ConsumeMessage)
    (w : World) (members : list (string * SmartDevices.value Number)) :
  JSON_parse (SmartDevices.content msg) = Returned (SmartDevices.Obj members) ->
  SmartDevices.lookup "args" members <> Some SmartDevices.Null ->
  existsb (SmartDevices.is_action (SmartDevices.lookup "name" members))
    [SmartDevices.SetYeelightRandomColor SmartDevicesTypes;
     SmartDevices.SetRandomColorInEveryLight SmartDevicesTypes;
     SmartDevices.TurnOnYeelight SmartDevicesTypes;
     SmartDevices.TurnOffYeelight SmartDevicesTypes] = false ->
  match SmartDevices.show show_number (SmartDevices.lookup "name" members) with
  | Some text =>
      calls_of (handle msg w)
      = [SmartDevices.LoggerWarn ("Unknown action: " ++ text);
         SmartDevices.SendToQueue (SmartDevices.replyTo msg) "{}"
           (SmartDevices.correlationId msg)]
  | None => exists text, handle msg w = (Thrown (TypeError text), w, [])
  end.
Proof.
  intros Hparse Hargs Hunknown.
  simpl in Hunknown.
  repeat (apply orb_false_iff in Hunknown; destruct Hunknown as [?H Hunknown]).
  assert (forall zones brightness,
             dispatch (SmartDevices.lookup "name" members) zones brightness w
             = match SmartDevices.show show_number
                       (SmartDevices.lookup "name" members) with
               | Some text =>
                   (Returned tt, w,
                    [SmartDevices.LoggerWarn ("Unknown action: " ++ text)])
               | None =>
                   (Thrown (TypeError "Cannot convert object to primitive value"),
                    w, [])
               end) as Hwarn.
  { intros zones brightness. unfold SmartDevices.dispatch.
    repeat match goal with
           | H : SmartDevices.is_action _ _ = false |- _ => rewrite H; clear H
           end.
    destruct (SmartDevices.show show_number _); reflexivity. }
  unfold SmartDevices.handleQueueMessage. rewrite Hparse.
  cbn [SmartDevices.member].
  destruct (SmartDevices.lookup "args" members) as [[| ? | ? | ? | ? | ?] |];
    try contradiction;
    rewrite then_reply_run, Hwarn;
    destruct (SmartDevices.show show_number _);
    first [reflexivity | eexists; reflexivity].
Qed.

(** X25.  The default brightness of 100 (and the empty zone list) stands
    in only when the message has no [args] at all.  When [args] is there
    without a brightness, turning the lights on is asked with the zones of
    the message and no brightness. *)
Theorem handleQueueMessage_turn_on_defaults (msg : SmartDevices.ConsumeMessage)
    (w : World) (members : list (string * SmartDevices.value Number)) :
  JSON_parse (SmartDevices.content msg) = Returned (SmartDevices.Obj members) ->
  SmartDevices.lookup "name" members
  = Some (SmartDevices.Str (SmartDevices.TurnOnYeelight SmartDevicesTypes)) ->
  String.eqb (SmartDevices.TurnOnYeelight SmartDevicesTypes)
             (SmartDevices.SetYeelightRandomColor SmartDevicesTypes) = false ->
  String.eqb (SmartDevices.TurnOnYeelight SmartDevicesTypes)
             (SmartDevices.SetRandomColorInEveryLight SmartDevicesTypes) = false ->
  (SmartDevices.lookup "args" members = None ->
   hd_error (calls_of (handle msg w))
   = Some (SmartDevices.Yeelight
             (SmartDevices.SetPower true (Some (SmartDevices.Arr []))
                (Some (SmartDevices.Num hundred)))))
  /\ (forall fields,
        SmartDevices.lookup "args" members = Some (SmartDevices.Obj fields) ->
        SmartDevices.lookup "brightness" fields = None ->
        hd_error (calls_of (handle msg w))
        = Some (SmartDevices.Yeelight
                  (SmartDevices.SetPower true (SmartDevices.lookup "zones" fields)
                     None))).
Proof.
  intros Hparse Hname Hfirst Hsecond.
  assert (forall zones brightness,
             hd_error (calls_of
                         ((_ <- dispatch (SmartDevices.lookup "name" members)
                                         zones brightness ;;
                           SmartDevices.reply channel_sendToQueue msg) w))
             = Some (SmartDevices.Yeelight
                       (SmartDevices.SetPower true zones brightness))) as Hon.
  { intros zones brightness. rewrite then_reply_run.
    unfold SmartDevices.dispatch. rewrite Hname. cbn [SmartDevices.is_action].
    rewrite Hfirst, Hsecond, String.eqb_refl. unfold call.
    destruct (yeelightService _ w) as [[[] | e] w1]; reflexivity. }
  unfold SmartDevices.handleQueueMessage. rewrite Hparse.
  cbn [SmartDevices.member].
  split.
  - intros Hargs. rewrite Hargs. apply Hon.
  - intros fields Hargs Hbright. rewrite Hargs. cbn [SmartDevices.member].
    rewrite Hbright. apply Hon.
Qed.

End SmartDevicesFacts.

Lemma handleQueueMessage_malformed_witness :
  exists e,
    SmartDevices.handleQueueMessage 100%Z (fun _ => "100") sample_smart_types
      (fun _ => Returned (SmartDevices.Obj
                            [("name", SmartDevices.Str "TurnOnYeelight");
                             ("args", SmartDevices.Null)]))
      (fun _ (w : unit) => (Returned tt, w)) (fun _ _ _ w => (Returned tt, w))
      sample_message tt
    = (Thrown e, tt, []).
Proof.
  apply (handleQueueMessage_malformed Z 100%Z (fun _ => "100") unit
           sample_smart_types
           (fun _ => Returned (SmartDevices.Obj
                                 [("name", SmartDevices.Str "TurnOnYeelight");
                                  ("args", SmartDevices.Null)]))
           (fun _ w => (Returned tt, w)) (fun _ _ _ w => (Returned tt, w))
           sample_message tt).
  reflexivity.
Defined.

Lemma handleQueueMessage_unknown_action_witness :
  calls_of
    (SmartDevices.handleQueueMessage 100%Z (fun _ => "100") sample_smart_types
       (fun _ => Returned (SmartDevices.Obj [("name", SmartDevices.Str "Dance")]))
       (fun _ (w : unit) => (Returned tt, w)) (fun _ _ _ w => (Returned tt, w))
       sample_message tt)
  = [SmartDevices.LoggerWarn ("Unknown action: " ++ "Dance");
     SmartDevices.SendToQueue (SmartDevices.replyTo sample_message) "{}"
       (SmartDevices.correlationId sample_message)].
Proof.
  apply (handleQueueMessage_unknown_action Z 100%Z (fun _ => "100") unit
           sample_smart_types
           (fun _ => Returned (SmartDevices.Obj [("name", SmartDevices.Str "Dance")]))
           (fun _ w => (Returned tt, w)) (fun _ _ _ w => (Returned tt, w))
           sample_message tt [("name", SmartDevices.Str "Dance")]).
  - reflexivity.
  - discriminate.
  - reflexivity.
Defined.

(** A name that is an object with a key [toString]: the text of the
    warning cannot be made, so the handler throws, silent and without a
    reply. *)
Example handleQueueMessage_name_without_text :
  exists text,
    SmartDevices.handleQueueMessage 100%Z (fun _ => "100") sample_smart_types
      (fun _ => Returned
                  (SmartDevices.Obj
                     [("name",
                       SmartDevices.Obj [("toString", SmartDevices.Num 1%Z)])]))
      (fun _ (w : unit) => (Returned tt, w)) (fun _ _ _ w => (Returned tt, w))
      sample_message tt
    = (Thrown (TypeError text), tt, []).
Proof. eexists. reflexivity. Qed.

Lemma handleQueueMessage_turn_on_defaults_witness :
  (SmartDevices.lookup "args" sample_turn_on = None ->
   hd_error
     (calls_of
        (SmartDevices.handleQueueMessage 100%Z (fun _ => "100") sample_smart_types
           (fun _ => Returned (SmartDevices.Obj sample_turn_on))
           (fun _ (w : unit) => (Returned tt, w)) (fun _ _ _ w => (Returned tt, w))
           sample_message tt))
   = Some (SmartDevices.Yeelight
             (SmartDevices.SetPower true (Some (SmartDevices.Arr []))
                (Some (SmartDevices.Num 100%Z)))))
  /\ (forall fields,
        SmartDevices.lookup "args" sample_turn_on = Some (SmartDevices.Obj fields) ->
        SmartDevices.lookup "brightness" fields = None ->
        hd_error
          (calls_of
             (SmartDevices.handleQueueMessage 100%Z (fun _ => "100")
                sample_smart_types
                (fun _ => Returned (SmartDevices.Obj sample_turn_on))
                (fun _ (w : unit) => (Returned tt, w))
                (fun _ _ _ w => (Returned tt, w))
                sample_message tt))
        = Some (SmartDevices.Yeelight
                  (SmartDevices.SetPower true (SmartDevices.lookup "zones" fields)
                     None))).
Proof.
  apply (handleQueueMessage_turn_on_defaults Z 100%Z (fun _ => "100") unit
           sample_smart_types
           (fun _ => Returned (SmartDevices.Obj sample_turn_on))
           (fun _ w => (Returned tt, w)) (fun _ _ _ w => (Returned tt, w))
           sample_message tt sample_turn_on);
    reflexivity.
Defined.

(** With [args] but no brightness, the lights of the kitchen are turned on
    with no brightness at all. *)
Example handleQueueMessage_no_brightness :
  calls_of
    (SmartDevices.handleQueueMessage 100%Z (fun _ => "100") sample_smart_types
       (fun _ => Returned (SmartDevices.Obj sample_turn_on))
       (fun _ (w : unit) => (Returned tt, w)) (fun _ _ _ w => (Returned tt, w))
       sample_message tt)
  = [SmartDevices.Yeelight
       (SmartDevices.SetPower true
          (Some (SmartDevices.Arr [SmartDevices.Str "kitchen"])) None);
     SmartDevices.SendToQueue "reply-queue" "{}" "id-7"].
Proof. reflexivity. Qed.

(** ** Quoting loses nothing *)

Lemma unquote_body_escape (c : ascii) (rest : string) :
  unquote_body (Json.escape c ++ rest) = option_map (String c) (unquote_body rest).
Proof. destruct c as [[] [] [] [] [] [] [] []]; reflexivity. Qed.

Lemma unquote_body_escape_all (s tail : string) :
  unquote_body (Json.escape_all s ++ String Json.dquote tail) = Some s.
Proof.
  induction s as [| c s IH]; [reflexivity |].
  cbn [Json.escape_all]. rewrite append_assoc, unquote_body_escape, IH.
  reflexivity.
Qed.

Lemma append_cancel_l (p a b : string) : (p ++ a = p ++ b)%string -> a = b.
Proof. induction p as [| c p IH]; simpl; intros H; [exact H | inversion H; auto]. Qed.

Lemma quote_tail_injective (a b tail : string) :
  (Json.quote a ++ tail = Json.quote b ++ tail)%string -> a = b.
Proof.
  unfold Json.quote. cbn [append]. intros H. injection H as H.
  rewrite !append_assoc in H. cbn [append] in H.
  assert (unquote_body (Json.escape_all a ++ String Json.dquote tail)
          = unquote_body (Json.escape_all b ++ String Json.dquote tail)) as Heq
    by now rewrite H.
  rewrite !unquote_body_escape_all in Heq. now injection Heq.
Qed.

(** X26.  Quoting loses nothing of a file name: two start requests with
    the same text on the wire name the same file, whatever characters the
    names hold. *)
Theorem start_payload_injective (Ansible : ansible_action_types)
    (vpnFileName otherFileName : string) :
  Json.stringify (start_payload Ansible (Some vpnFileName))
  = Json.stringify (start_payload Ansible (Some otherFileName)) ->
  vpnFileName = otherFileName.
Proof.
  unfold start_payload. cbn [Json.stringify map Js.join String.concat].
  rewrite !append_assoc. intros H.
  repeat match type of H with
         | (String ?c ?a = String ?c ?b) => injection H as H
         | ((?p ++ ?a)%string = (?p ++ ?b)%string) => apply append_cancel_l in H
         end.
  cbn [append] in H.
  repeat match type of H with
         | (String ?c ?a = String ?c ?b) => injection H as H
         | ((?p ++ ?a)%string = (?p ++ ?b)%string) => apply append_cancel_l in H
         end.
  eapply quote_tail_injective. exact H.
Qed.

Lemma start_payload_injective_witness : "vpn_france_paris" = "vpn_france_paris".
Proof.
  apply (start_payload_injective sample_action_types
           "vpn_france_paris" "vpn_france_paris").
  reflexivity.
Defined.

(** ** Selecting the files of a location *)

(** X27.  [getLocationVpnFiles] lists the folder once and keeps, in the
    order of the listing, the names that contain the location when both
    are put in lower case; an empty location keeps every name; a failure
    of the listing is passed on. *)
Theorem getLocationVpnFiles_selection (World : Type) (svc : services World)
    (location : string) (w : World) :
  match filesService_getDirFiles svc (configService_get svc "VPN.FolderFilesPath") w with
  | (Thrown e, w1) =>
      getLocationVpnFiles svc location w
      = (Thrown e, w1, [GetDirFiles (configService_get svc "VPN.FolderFilesPath")])
  | (Returned dirFiles, w1) =>
      exists vpnFiles,
        getLocationVpnFiles svc location w
        = (Returned vpnFiles, w1,
           [GetDirFiles (configService_get svc "VPN.FolderFilesPath")])
        /\ Sublist vpnFiles dirFiles
        /\ (forall name,
              In name vpnFiles
              <-> In name dirFiles
                  /\ occurs_in (Js.toLowerCase location) (Js.toLowerCase name))
        /\ (location = EmptyString -> vpnFiles = dirFiles)
  end.
Proof.
  rewrite getLocationVpnFiles_run.
  destruct (filesService_getDirFiles svc _ w) as [[dirFiles | e] w1];
    [| reflexivity].
  eexists. split; [reflexivity |]. split; [apply Sublist_filter |]. split.
  - intros name. rewrite filter_In. unfold matchesLocation.
    now rewrite includes_occurs.
  - intros ->. unfold matchesLocation. simpl Js.toLowerCase.
    induction dirFiles as [| name dirFiles IH]; simpl; [reflexivity |].
    now rewrite includes_empty, IH.
Qed.
